(** * GUIOSGManipulator: the camera manipulator of the OSG view

    A shallow embedding of [src/osgview/GUIOSGManipulator.cpp].

    The manipulator derives from OpenSceneGraph's [osgGA::TerrainManipulator].
    The OpenSceneGraph types and operations the file calls ([osg::Quat],
    [osg::Matrixd], [StandardManipulator::fixVerticalAxis], the base drag
    handlers, ...) are not part of the repository: they enter the development
    as the operations of type classes, so that every theorem about the
    manipulator holds for whatever arithmetic implements them (IEEE doubles
    included).  Theorems that need algebra (inverse matrices, round trips)
    assume the laws of exact arithmetic, collected in the classes [OsgExact]
    and [OsgExactRotation]; module [RealOsg] gives the operations over the
    real numbers, modules [RealOsgFacts] and [RealOsgRotationFacts] prove
    these laws of them, and modules [RealRuns] and [RealMoreRuns] run the
    manipulator on them. *)

From Stdlib Require Import ZArith Bool List Lia String.
From Stdlib Require Import Reals Lra Psatz RNsatz.
Import ListNotations.

Set Implicit Arguments.

(* ================================================================= *)
(** ** Scalars: the C++ [double] (and [float]) values *)

(** The operations on [double] the source uses.  [to_float] is the
    conversion a [double] undergoes when it is stored in a [float] or an
    [osg::Vec3f]; a [float] is read back as a [double] unchanged. *)
Class Scalar : Type := {
  scalar : Type;
  s0 : scalar;                              (* 0. *)
  s1 : scalar;                              (* 1. *)
  s2 : scalar;                              (* 2. *)
  sadd : scalar -> scalar -> scalar;        (* a + b *)
  ssub : scalar -> scalar -> scalar;        (* a - b *)
  smul : scalar -> scalar -> scalar;        (* a * b *)
  sdiv : scalar -> scalar -> scalar;        (* a / b *)
  sneg : scalar -> scalar;                  (* -a *)
  sgtb : scalar -> scalar -> bool;          (* a > b *)
  seqb : scalar -> scalar -> bool;          (* a == b *)
  to_float : scalar -> scalar               (* (float) a *)
}.

(* ================================================================= *)
(** ** [osg::Vec3d] *)

Section Vectors.
Context {SC : Scalar}.

Record Vec3 : Type := V3 { vx : scalar; vy : scalar; vz : scalar }.

(** [a + b], and [a += b]. *)
Definition v3_add (a b : Vec3) : Vec3 :=
  V3 (sadd (vx a) (vx b)) (sadd (vy a) (vy b)) (sadd (vz a) (vz b)).

(** [a - b]. *)
Definition v3_sub (a b : Vec3) : Vec3 :=
  V3 (ssub (vx a) (vx b)) (ssub (vy a) (vy b)) (ssub (vz a) (vz b)).

(** [-a]. *)
Definition v3_neg (a : Vec3) : Vec3 :=
  V3 (sneg (vx a)) (sneg (vy a)) (sneg (vz a)).

(** [a * b] on two vectors: the dot product. *)
Definition v3_dot (a b : Vec3) : scalar :=
  sadd (sadd (smul (vx a) (vx b)) (smul (vy a) (vy b))) (smul (vz a) (vz b)).

(** [a != b]: some component differs. *)
Definition v3_neqb (a b : Vec3) : bool :=
  negb (seqb (vx a) (vx b)) || negb (seqb (vy a) (vy b))
  || negb (seqb (vz a) (vz b)).

(** The conversion of an [osg::Vec3d] to an [osg::Vec3f]. *)
Definition v3_to_float (a : Vec3) : Vec3 :=
  V3 (to_float (vx a)) (to_float (vy a)) (to_float (vz a)).

(** [osg::Vec3d(0., 0., 0.)]. *)
Definition v3_zero : Vec3 := V3 s0 s0 s0.

(** [osg::Z_AXIS]. *)
Definition Z_AXIS : Vec3 := V3 s0 s0 s1.

End Vectors.

(* ================================================================= *)
(** ** The OpenSceneGraph operations the manipulator calls *)

(** Quaternions, 4x4 matrices and the re-levelling of
    [osgGA::StandardManipulator].  OSG multiplies row vectors from the left:
    [m_mul a b] is [a * b], the transform [a] followed by [b]. *)
Class Osg {SC : Scalar} : Type := {
  quat : Type;
  matrix : Type;
  (** [osg::Quat()]: the identity rotation. *)
  quat_identity : quat;
  (** [osg::Quat(angle, axis)] and [q.makeRotate(angle, axis)]. *)
  quat_angle_axis : scalar -> Vec3 -> quat;
  (** [a * b] on quaternions. *)
  quat_mul : quat -> quat -> quat;
  (** [q * v]: the vector [v] rotated by [q]. *)
  quat_rotate : quat -> Vec3 -> Vec3;
  (** [q.inverse()]. *)
  quat_inverse : quat -> quat;
  (** [q.length2()]. *)
  quat_length2 : quat -> scalar;
  (** [osg::Matrixd::identity()]. *)
  m_identity : matrix;
  (** [osg::Matrixd::translate(v)]. *)
  m_translate : Vec3 -> matrix;
  (** [osg::Matrixd::rotate(q)]. *)
  m_rotate : quat -> matrix;
  (** [a * b] on matrices. *)
  m_mul : matrix -> matrix -> matrix;
  (** [m.getRotate()]. *)
  m_getRotate : matrix -> quat;
  (** [v * m]: the point [v] transformed by [m]. *)
  m_preMult : Vec3 -> matrix -> Vec3;
  (** [fixVerticalAxis(rotation, localUp, disallowFlipOver)]: the new
      value of [rotation]. *)
  fixVerticalAxis : quat -> Vec3 -> bool -> quat;
  (** [fixVerticalAxis(eye, rotation, disallowFlipOver)]: the new values
      of [eye] and [rotation]. *)
  fixVerticalAxis_at : Vec3 -> quat -> bool -> Vec3 * quat;
  (** What else the base classes and the event queue hold (the pointer
      centre, pending pointer-warp requests, the scene). *)
  toolkit_state : Type
}.

(* ================================================================= *)
(** ** Events, modes and the manipulator's state *)

(** [enum ManipulatorMode]. *)
Inductive ManipulatorMode : Type := MODE_EGO | MODE_WALK | MODE_TERRAIN.

(** The values of [ea.getKey()] the source distinguishes; every other key
    code is [KEY_other]. *)
Inductive KeySymbol : Type :=
| KEY_Up | KEY_Down | KEY_Right | KEY_Left | KEY_F
| KEY_other (code : Z).

Definition mode_eqb (a b : ManipulatorMode) : bool :=
  match a, b with
  | MODE_EGO, MODE_EGO | MODE_WALK, MODE_WALK
  | MODE_TERRAIN, MODE_TERRAIN => true
  | _, _ => false
  end.

Section State.
Context {SC : Scalar} {OSG : Osg}.

(** What the handlers read of an [osgGA::GUIEventAdapter]. *)
Record GUIEventAdapter : Type := {
  getKey : KeySymbol;
  getTime : scalar;
  getXnormalized : scalar;     (* a float *)
  getYnormalized : scalar      (* a float *)
}.

(** The object: the members of [GUIOSGManipulator], then those it inherits
    ([_center], [_rotation], [_distance] of [OrbitManipulator];
    [_verticalAxisFixed], [_ga_t0], [_ga_t1] of [StandardManipulator];
    [None] is the null pointer). *)
Record GUIOSGManipulator : Type := {
  myCurrentMode : ManipulatorMode;
  myWalkEyeHeight : scalar;
  myMoveSpeed : scalar;
  myMove : Vec3;
  _center : Vec3;
  _rotation : quat;
  _distance : scalar;
  _verticalAxisFixed : bool;
  _ga_t0 : option GUIEventAdapter;
  _ga_t1 : option GUIEventAdapter;
  toolkit : toolkit_state
}.

Definition set_mode (m : ManipulatorMode) (s : GUIOSGManipulator) :=
  {| myCurrentMode := m; myWalkEyeHeight := myWalkEyeHeight s;
     myMoveSpeed := myMoveSpeed s; myMove := myMove s;
     _center := _center s; _rotation := _rotation s;
     _distance := _distance s; _verticalAxisFixed := _verticalAxisFixed s;
     _ga_t0 := _ga_t0 s; _ga_t1 := _ga_t1 s; toolkit := toolkit s |}.

Definition set_move (v : Vec3) (s : GUIOSGManipulator) :=
  {| myCurrentMode := myCurrentMode s; myWalkEyeHeight := myWalkEyeHeight s;
     myMoveSpeed := myMoveSpeed s; myMove := v;
     _center := _center s; _rotation := _rotation s;
     _distance := _distance s; _verticalAxisFixed := _verticalAxisFixed s;
     _ga_t0 := _ga_t0 s; _ga_t1 := _ga_t1 s; toolkit := toolkit s |}.

Definition set_center (v : Vec3) (s : GUIOSGManipulator) :=
  {| myCurrentMode := myCurrentMode s; myWalkEyeHeight := myWalkEyeHeight s;
     myMoveSpeed := myMoveSpeed s; myMove := myMove s;
     _center := v; _rotation := _rotation s;
     _distance := _distance s; _verticalAxisFixed := _verticalAxisFixed s;
     _ga_t0 := _ga_t0 s; _ga_t1 := _ga_t1 s; toolkit := toolkit s |}.

Definition set_rotation (q : quat) (s : GUIOSGManipulator) :=
  {| myCurrentMode := myCurrentMode s; myWalkEyeHeight := myWalkEyeHeight s;
     myMoveSpeed := myMoveSpeed s; myMove := myMove s;
     _center := _center s; _rotation := q;
     _distance := _distance s; _verticalAxisFixed := _verticalAxisFixed s;
     _ga_t0 := _ga_t0 s; _ga_t1 := _ga_t1 s; toolkit := toolkit s |}.

Definition set_samples (t0 t1 : option GUIEventAdapter)
    (s : GUIOSGManipulator) :=
  {| myCurrentMode := myCurrentMode s; myWalkEyeHeight := myWalkEyeHeight s;
     myMoveSpeed := myMoveSpeed s; myMove := myMove s;
     _center := _center s; _rotation := _rotation s;
     _distance := _distance s; _verticalAxisFixed := _verticalAxisFixed s;
     _ga_t0 := t0; _ga_t1 := t1; toolkit := toolkit s |}.

Definition set_toolkit (k : toolkit_state) (s : GUIOSGManipulator) :=
  {| myCurrentMode := myCurrentMode s; myWalkEyeHeight := myWalkEyeHeight s;
     myMoveSpeed := myMoveSpeed s; myMove := myMove s;
     _center := _center s; _rotation := _rotation s;
     _distance := _distance s; _verticalAxisFixed := _verticalAxisFixed s;
     _ga_t0 := _ga_t0 s; _ga_t1 := _ga_t1 s; toolkit := k |}.

(** [#define DEFAULT_MOVESPEED_MIN 1.0], the move speed the constructor
    sets. *)
Definition DEFAULT_MOVESPEED_MIN : scalar := s1.

(** [getVerticalAxisFixed()]. *)
Definition getVerticalAxisFixed (s : GUIOSGManipulator) : bool :=
  _verticalAxisFixed s.

End State.

(* ================================================================= *)
(** ** The behaviour inherited from [osgGA::TerrainManipulator] *)

(** The base class's drag handlers and pointer re-centring act on the whole
    object (and on the scene and the event queue behind [toolkit]). *)
Class ManipulatorBase {SC : Scalar} {OSG : Osg} : Type := {
  (** [osgGA::TerrainManipulator::performMovementLeftMouseButton]. *)
  Terrain_performMovementLeftMouseButton :
    scalar -> scalar -> scalar -> GUIOSGManipulator ->
    bool * GUIOSGManipulator;
  (** [osgGA::TerrainManipulator::performMovementMiddleMouseButton]. *)
  Terrain_performMovementMiddleMouseButton :
    scalar -> scalar -> scalar -> GUIOSGManipulator ->
    bool * GUIOSGManipulator;
  (** [osgGA::TerrainManipulator::performMovementRightMouseButton]. *)
  Terrain_performMovementRightMouseButton :
    scalar -> scalar -> scalar -> GUIOSGManipulator ->
    bool * GUIOSGManipulator;
  (** [centerMousePointer(ea, aa)]: asks the window to move the pointer to
      its centre. *)
  centerMousePointer :
    GUIEventAdapter -> GUIOSGManipulator -> GUIOSGManipulator
}.

(* ================================================================= *)
(** ** The methods of [GUIOSGManipulator] *)

Section Manipulator.
Context {SC : Scalar} {OSG : Osg} {BASE : ManipulatorBase}.

(** *** Mouse drags *)

Definition performMovementLeftMouseButton (eventTimeDelta dx dy : scalar)
    (s : GUIOSGManipulator) : bool * GUIOSGManipulator :=
  if mode_eqb (myCurrentMode s) MODE_TERRAIN then
    Terrain_performMovementMiddleMouseButton eventTimeDelta dx dy s
  else (false, s).

Definition performMovementMiddleMouseButton (eventTimeDelta dx dy : scalar)
    (s : GUIOSGManipulator) : bool * GUIOSGManipulator :=
  if mode_eqb (myCurrentMode s) MODE_TERRAIN then
    Terrain_performMovementLeftMouseButton eventTimeDelta dx dy s
  else (false, s).

Definition performMovementRightMouseButton (eventTimeDelta dx dy : scalar)
    (s : GUIOSGManipulator) : bool * GUIOSGManipulator :=
  if mode_eqb (myCurrentMode s) MODE_TERRAIN then
    Terrain_performMovementRightMouseButton eventTimeDelta dx (sneg dy) s
  else (false, s).

(** *** View matrices *)

(** The eye position of the ego and walk modes, an [osg::Vec3f]:
    [_center - _rotation * osg::Vec3d(0., 0., -_distance)]. *)
Definition eye_of (s : GUIOSGManipulator) : Vec3 :=
  v3_to_float
    (v3_sub (_center s)
       (quat_rotate (_rotation s) (V3 s0 s0 (sneg (_distance s))))).

Definition getMatrix (s : GUIOSGManipulator) : matrix :=
  if mode_eqb (myCurrentMode s) MODE_TERRAIN then
    m_mul (m_mul (m_translate (V3 s0 s0 (_distance s)))
                 (m_rotate (_rotation s)))
          (m_translate (_center s))
  else
    let eye := eye_of s in
    m_mul (m_rotate (_rotation s)) (m_translate eye).

Definition getInverseMatrix (s : GUIOSGManipulator) : matrix :=
  if mode_eqb (myCurrentMode s) MODE_TERRAIN then
    m_mul (m_mul (m_translate (v3_neg (_center s)))
                 (m_rotate (quat_inverse (_rotation s))))
          (m_translate (V3 s0 s0 (sneg (_distance s))))
  else
    let eye := eye_of s in
    m_mul (m_translate (v3_neg eye)) (m_rotate (quat_inverse (_rotation s))).

Definition setByMatrix (m : matrix) (s : GUIOSGManipulator)
    : GUIOSGManipulator :=
  let s := set_center (m_preMult (V3 s0 s0 (sneg (_distance s))) m) s in
  let s := set_rotation (m_getRotate m) s in
  (* fix current rotation *)
  if getVerticalAxisFixed s then
    let '(c, q) := fixVerticalAxis_at (_center s) (_rotation s) true in
    set_rotation q (set_center c s)
  else s.

(** *** Keys *)

Definition handleKeyDown (ea : GUIEventAdapter) (s : GUIOSGManipulator)
    : bool * GUIOSGManipulator :=
  let '(result, s) :=
    match getKey ea with
    | KEY_Up =>
        (true, set_move (V3 (vx (myMove s)) (vy (myMove s))
                            (ssub (vz (myMove s)) (myMoveSpeed s))) s)
    | KEY_Down =>
        (true, set_move (V3 (vx (myMove s)) (vy (myMove s))
                            (sadd (vz (myMove s)) (myMoveSpeed s))) s)
    | KEY_Right =>
        (true, set_move (V3 (sadd (vx (myMove s)) (myMoveSpeed s))
                            (vy (myMove s)) (vz (myMove s))) s)
    | KEY_Left =>
        (true, set_move (V3 (ssub (vx (myMove s)) (myMoveSpeed s))
                            (vy (myMove s)) (vz (myMove s))) s)
    | _ => (false, s)
    end in
  (result,
   set_center
     (v3_add (_center s)
        (quat_rotate (m_getRotate (getMatrix s)) (myMove s))) s).

Definition handleKeyUp (ea : GUIEventAdapter) (s : GUIOSGManipulator)
    : bool * GUIOSGManipulator :=
  match getKey ea with
  | KEY_Up | KEY_Down | KEY_Right | KEY_Left =>
      (true, set_move (V3 s0 s0 s0) s)
  | KEY_F =>
      (true,
       match myCurrentMode s with
       | MODE_EGO => set_mode MODE_TERRAIN s
       | MODE_WALK => set_mode MODE_TERRAIN s
       | _ => set_mode MODE_EGO s
       end)
  | _ => (false, s)
  end.

(** *** Yaw and pitch *)

(** [rotateYawPitch] receives its [rotation] as a C++ reference.  The one
    call in the file passes the member [_rotation], so that a write through
    [rotation] is a write to [_rotation]; [RefLocal q] stands for any other
    quaternion object, holding [q]. *)
Inductive QuatRef : Type :=
| RefRotation
| RefLocal (q : quat).

Definition deref (r : QuatRef) (s : GUIOSGManipulator) : quat :=
  match r with
  | RefRotation => _rotation s
  | RefLocal q => q
  end.

Definition assign (r : QuatRef) (q : quat) (s : GUIOSGManipulator)
    : QuatRef * GUIOSGManipulator :=
  match r with
  | RefRotation => (RefRotation, set_rotation q s)
  | RefLocal _ => (RefLocal q, s)
  end.

(** The [do { ... } while (true)] loop, from the values [my_dy] and [i]
    have on entry to a pass.  [fuel] bounds the number of passes: [None] is
    a loop still running after [fuel] passes.  (The [int i] stays between 0
    and 20 when it starts at 0, so that [++i] is exact.) *)
Fixpoint rotateYawPitch_loop (fuel : nat) (rotation rotateYaw : quat)
    (cameraRight localUp : Vec3) (verticalAxisFixed : bool) (eye : Vec3)
    (my_dy : scalar) (i : Z) (s : GUIOSGManipulator)
    : option GUIOSGManipulator :=
  match fuel with
  | O => None
  | S fuel' =>
      (* rotations *)
      let rotatePitch := quat_angle_axis my_dy cameraRight in
      let newRotation := quat_mul (quat_mul rotation rotateYaw) rotatePitch in
      (* update vertical axis *)
      let newRotation :=
        if verticalAxisFixed then fixVerticalAxis newRotation localUp false
        else newRotation in
      (* check for viewer's up vector to be more than 90 degrees from "up"
         axis *)
      let newCameraUp := quat_rotate newRotation (V3 s0 s1 s0) in
      if sgtb (v3_dot newCameraUp localUp) s0 then
        (* apply new rotation *)
        Some (setByMatrix (m_mul (m_rotate newRotation) (m_translate eye)) s)
      else
        let my_dy := sdiv my_dy s2 in
        let i := (i + 1)%Z in
        if (i =? 20)%Z then
          Some (setByMatrix
                  (m_mul (m_mul (m_rotate rotation) (m_rotate rotateYaw))
                         (m_translate eye)) s)
        else
          rotateYawPitch_loop fuel' rotation rotateYaw cameraRight localUp
            verticalAxisFixed eye my_dy i s
  end.

Definition rotateYawPitch (fuel : nat) (r : QuatRef) (yaw pitch : scalar)
    (localUp : Vec3) (s : GUIOSGManipulator) : option GUIOSGManipulator :=
  let verticalAxisFixed := v3_neqb localUp (V3 s0 s0 s0) in
  (* fix current rotation *)
  let '(r, s) :=
    if verticalAxisFixed then
      assign r (fixVerticalAxis (deref r s) localUp true) s
    else (r, s) in
  let rotation := deref r s in
  (* rotations *)
  let rotateYaw :=
    quat_angle_axis (sneg yaw)
      (if verticalAxisFixed then localUp
       else quat_rotate rotation (V3 s0 s1 s0)) in
  let cameraRight := quat_rotate rotation (V3 s1 s0 s0) in
  let my_dy := pitch in
  let i := 0%Z in
  let eye := eye_of s in
  rotateYawPitch_loop fuel rotation rotateYaw cameraRight localUp
    verticalAxisFixed eye my_dy i s.

(** *** The loop, observed *)

(** The candidate of one pass of the loop, for the pitch [my_dy]:
    [rotation * rotateYaw * rotatePitch], re-levelled when the vertical axis
    is fixed. *)
Definition candidate (rotation rotateYaw : quat) (cameraRight localUp : Vec3)
    (verticalAxisFixed : bool) (my_dy : scalar) : quat :=
  let rotatePitch := quat_angle_axis my_dy cameraRight in
  let newRotation := quat_mul (quat_mul rotation rotateYaw) rotatePitch in
  if verticalAxisFixed then fixVerticalAxis newRotation localUp false
  else newRotation.

(** The test of a candidate: [newCameraUp * localUp > 0.] with
    [newCameraUp = newRotation * osg::Vec3d(0., 1., 0.)]. *)
Definition hemisphere_ok (newRotation : quat) (localUp : Vec3) : bool :=
  let newCameraUp := quat_rotate newRotation (V3 s0 s1 s0) in
  sgtb (v3_dot newCameraUp localUp) s0.

(** How the loop is left: through the first [return], with the accepted
    candidate, or through the second, after the twentieth rejection. *)
Inductive LoopExit : Type :=
| Accepted (newRotation : quat)
| YawOnly.

(** The same loop without the calls of [setByMatrix]: how it is left, and
    the values of [my_dy] and [i] at that point. *)
Fixpoint pitch_loop (fuel : nat) (rotation rotateYaw : quat)
    (cameraRight localUp : Vec3) (verticalAxisFixed : bool)
    (my_dy : scalar) (i : Z) : option (LoopExit * scalar * Z) :=
  match fuel with
  | O => None
  | S fuel' =>
      let newRotation :=
        candidate rotation rotateYaw cameraRight localUp verticalAxisFixed
          my_dy in
      if hemisphere_ok newRotation localUp then
        Some (Accepted newRotation, my_dy, i)
      else
        let my_dy := sdiv my_dy s2 in
        let i := (i + 1)%Z in
        if (i =? 20)%Z then Some (YawOnly, my_dy, i)
        else pitch_loop fuel' rotation rotateYaw cameraRight localUp
               verticalAxisFixed my_dy i
  end.

(** The pitch after [k] halvings ([my_dy /= 2.], [k] times). *)
Definition halved (k : nat) (pitch : scalar) : scalar :=
  Nat.iter k (fun d => sdiv d s2) pitch.

(** The locals of [rotateYawPitch] when the loop is entered. *)
Record YawPitchFrame : Type := {
  yp_ref : QuatRef;
  yp_state : GUIOSGManipulator;
  yp_verticalAxisFixed : bool;
  yp_rotation : quat;
  yp_rotateYaw : quat;
  yp_cameraRight : Vec3;
  yp_eye : Vec3
}.

Definition rotateYawPitch_enter (r : QuatRef) (yaw : scalar)
    (localUp : Vec3) (s : GUIOSGManipulator) : YawPitchFrame :=
  let verticalAxisFixed := v3_neqb localUp (V3 s0 s0 s0) in
  let '(r, s) :=
    if verticalAxisFixed then
      assign r (fixVerticalAxis (deref r s) localUp true) s
    else (r, s) in
  let rotation := deref r s in
  let rotateYaw :=
    quat_angle_axis (sneg yaw)
      (if verticalAxisFixed then localUp
       else quat_rotate rotation (V3 s0 s1 s0)) in
  let cameraRight := quat_rotate rotation (V3 s1 s0 s0) in
  {| yp_ref := r; yp_state := s;
     yp_verticalAxisFixed := verticalAxisFixed;
     yp_rotation := rotation; yp_rotateYaw := rotateYaw;
     yp_cameraRight := cameraRight; yp_eye := eye_of s |}.

(** The state installed when the loop is left. *)
Definition rotateYawPitch_leave (f : YawPitchFrame) (e : LoopExit)
    : GUIOSGManipulator :=
  match e with
  | Accepted newRotation =>
      setByMatrix (m_mul (m_rotate newRotation) (m_translate (yp_eye f)))
        (yp_state f)
  | YawOnly =>
      setByMatrix
        (m_mul (m_mul (m_rotate (yp_rotation f)) (m_rotate (yp_rotateYaw f)))
               (m_translate (yp_eye f)))
        (yp_state f)
  end.

(** *** Mouse moves *)

(** Modelled from the spec: [addMouseEvent] of the base class
    [osgGA::StandardManipulator], which keeps "the two most recent pointer
    samples": the newest sample becomes the previous one, and [ea] the
    newest. *)
Definition addMouseEvent (ea : GUIEventAdapter) (s : GUIOSGManipulator)
    : GUIOSGManipulator :=
  set_samples (Some ea) (_ga_t0 s) s.

Definition performMouseDeltaMovement (fuel : nat) (dx dy : scalar)
    (s : GUIOSGManipulator) : option (bool * GUIOSGManipulator) :=
  match rotateYawPitch fuel RefRotation dx dy Z_AXIS s with
  | Some s' => Some (true, s')
  | None => None
  end.

Definition handleMouseDeltaMovement (fuel : nat) (ea : GUIEventAdapter)
    (s : GUIOSGManipulator) : option (bool * GUIOSGManipulator) :=
  let s := addMouseEvent ea s in
  match _ga_t0 s, _ga_t1 s with
  | Some t0, Some t1 =>
      let dt := ssub (getTime t0) (getTime t1) in
      let dx := to_float (smul (getXnormalized t0) dt) in
      let dy := to_float (smul (getYnormalized t0) dt) in
      if seqb dx s0 && seqb dy s0 then Some (false, s)
      else
        let s := centerMousePointer ea s in
        (* calculate delta angles from dx and dy movements *)
        performMouseDeltaMovement fuel dx dy s
  | _, _ => Some (false, s)
  end.

Definition handleMouseMove (fuel : nat) (ea : GUIEventAdapter)
    (s : GUIOSGManipulator) : option (bool * GUIOSGManipulator) :=
  match myCurrentMode s with
  | MODE_EGO | MODE_WALK => handleMouseDeltaMovement fuel ea s
  | _ => Some (false, s)
  end.

End Manipulator.

(** *** Streams of key events, and observations of the state *)

Section Observations.
Context {SC : Scalar} {OSG : Osg} {BASE : ManipulatorBase}.

(** A key press and a key release, as the event queue delivers them. *)
Inductive KeyEvent : Type :=
| KEYDOWN (ea : GUIEventAdapter)
| KEYUP (ea : GUIEventAdapter).

Definition handleKey (e : KeyEvent) (s : GUIOSGManipulator)
    : GUIOSGManipulator :=
  match e with
  | KEYDOWN ea => snd (handleKeyDown ea s)
  | KEYUP ea => snd (handleKeyUp ea s)
  end.

Definition handleKeys (es : list KeyEvent) (s : GUIOSGManipulator)
    : GUIOSGManipulator :=
  fold_left (fun s e => handleKey e s) es s.

(** The four keys that [handleKeyDown] and [handleKeyUp] treat as
    movement keys. *)
Definition movement_key (k : KeySymbol) : bool :=
  match k with
  | KEY_Up | KEY_Down | KEY_Right | KEY_Left => true
  | _ => false
  end.

(** What a pointer move may not touch when it is not handled: everything
    but the two stored pointer samples. *)
Definition camera_of (s : GUIOSGManipulator) :=
  (myCurrentMode s, myWalkEyeHeight s, myMoveSpeed s, myMove s,
   _center s, _rotation s, _distance s, _verticalAxisFixed s, toolkit s).

End Observations.

(* ================================================================= *)
(** ** More observations: counts of keys, the untouched parts, mode names *)

Section MoreObservations.
Context {SC : Scalar} {OSG : Osg} {BASE : ManipulatorBase}.

(** Equality of key symbols. *)
Definition key_eqb (a b : KeySymbol) : bool :=
  match a, b with
  | KEY_Up, KEY_Up | KEY_Down, KEY_Down | KEY_Right, KEY_Right
  | KEY_Left, KEY_Left | KEY_F, KEY_F => true
  | KEY_other c, KEY_other d => (c =? d)%Z
  | _, _ => false
  end.

(** The number of events of a list that carry the key [k]. *)
Definition count_key (k : KeySymbol) (eas : list GUIEventAdapter) : nat :=
  List.length (filter (fun ea => key_eqb (getKey ea) k) eas).

(** [n] times [a], by repeated addition. *)
Definition smul_nat (n : nat) (a : scalar) : scalar :=
  Nat.iter n (fun acc => sadd acc a) s0.

(** The eye of the ego and walk modes in double precision, before its
    conversion to [osg::Vec3f]: [eye_of s] is [v3_to_float (eye_double s)]. *)
Definition eye_double (s : GUIOSGManipulator) : Vec3 :=
  v3_sub (_center s)
    (quat_rotate (_rotation s) (V3 s0 s0 (sneg (_distance s)))).

(** Everything but the centre and the rotation: what turning the camera
    may not touch. *)
Definition rest_of (s : GUIOSGManipulator) :=
  (myCurrentMode s, myWalkEyeHeight s, myMoveSpeed s, myMove s,
   _distance s, _verticalAxisFixed s, _ga_t0 s, _ga_t1 s, toolkit s).

(** Everything but the mode, the move vector and the centre: what key
    events may not touch. *)
Definition beyond_keys (s : GUIOSGManipulator) :=
  (myWalkEyeHeight s, myMoveSpeed s, _rotation s, _distance s,
   _verticalAxisFixed s, _ga_t0 s, _ga_t1 s, toolkit s).

End MoreObservations.

(** *** The names of the modes *)

(** [ModeTextInitializer], the entries of the table [ModeText]. *)
Definition ModeTextInitializer : list (string * ManipulatorMode) :=
  [ ("ego mode"%string, MODE_EGO);
    ("walk mode"%string, MODE_WALK);
    ("terrain mode"%string, MODE_TERRAIN) ].

(** Modelled from the spec: the table [StringBijection<ManipulatorMode>
    ModeText(ModeTextInitializer, MODE_TERRAIN, false)], "a global bijective
    string/enum table for mode names".  The constructor takes the entries up
    to and including the first one whose key is the terminator key; a later
    entry for the same string or key replaces an earlier one ([false]: no
    check for duplicates); [ModeText_getString] and [ModeText_get] are the
    two look-ups, [None] where the table has no entry. *)
Fixpoint entries_upto (terminatorKey : ManipulatorMode)
    (entries : list (string * ManipulatorMode))
    : list (string * ManipulatorMode) :=
  match entries with
  | [] => []
  | e :: rest =>
      if mode_eqb (snd e) terminatorKey then [e]
      else e :: entries_upto terminatorKey rest
  end.

Definition ModeText : list (string * ManipulatorMode) :=
  entries_upto MODE_TERRAIN ModeTextInitializer.

Definition ModeText_getString (key : ManipulatorMode) : option string :=
  match find (fun e => mode_eqb (snd e) key) (rev ModeText) with
  | Some e => Some (fst e)
  | None => None
  end.

Definition ModeText_get (str : string) : option ManipulatorMode :=
  match find (fun e => String.eqb (fst e) str) (rev ModeText) with
  | Some e => Some (snd e)
  | None => None
  end.

(** [updateHUD]'s text: [ModeText.getString(myCurrentMode)]. *)
Definition hud_text {SC : Scalar} {OSG : Osg} (s : GUIOSGManipulator)
    : option string :=
  ModeText_getString (myCurrentMode s).

(* ================================================================= *)
(** ** The laws of exact arithmetic *)

(** What the OpenSceneGraph operations satisfy when scalars are computed
    exactly: scalars form a ring, matrices compose associatively,
    translations add, a unit quaternion's rotation matrix is inverted by
    the matrix of its inverse, and [getRotate] reads the rotation part of
    an affine matrix back. *)
Class OsgExact {SC : Scalar} {OSG : Osg} : Prop := {
  scalar_ring :
    ring_theory s0 s1 sadd smul ssub sneg (@eq scalar);
  m_mul_assoc :
    forall a b c, m_mul a (m_mul b c) = m_mul (m_mul a b) c;
  m_mul_1_l : forall a, m_mul m_identity a = a;
  m_mul_1_r : forall a, m_mul a m_identity = a;
  m_translate_zero : m_translate (V3 s0 s0 s0) = m_identity;
  m_translate_add :
    forall a b, m_mul (m_translate a) (m_translate b) = m_translate (v3_add a b);
  m_rotate_identity : m_rotate quat_identity = m_identity;
  m_rotate_inverse_r :
    forall q, quat_length2 q = s1 ->
      m_mul (m_rotate q) (m_rotate (quat_inverse q)) = m_identity;
  m_rotate_inverse_l :
    forall q, quat_length2 q = s1 ->
      m_mul (m_rotate (quat_inverse q)) (m_rotate q) = m_identity;
  m_preMult_translate :
    forall v a, m_preMult v (m_translate a) = v3_add v a;
  m_preMult_translate_mul :
    forall v a b,
      m_preMult v (m_mul (m_translate a) b) = m_preMult (v3_add v a) b;
  m_preMult_rotate_mul :
    forall q b,
      m_preMult (V3 s0 s0 s0) (m_mul (m_rotate q) b)
      = m_preMult (V3 s0 s0 s0) b;
  m_getRotate_translate_l :
    forall a b, m_getRotate (m_mul (m_translate a) b) = m_getRotate b;
  m_getRotate_translate_r :
    forall q c,
      m_getRotate (m_mul (m_rotate q) (m_translate c))
      = m_getRotate (m_rotate q);
  m_getRotate_rotate :
    forall q, quat_length2 q = s1 ->
      m_rotate (m_getRotate (m_rotate q)) = m_rotate q
}.

(* ================================================================= *)
(** ** More laws of exact arithmetic: comparisons and rotated points *)

(** What else holds when the operations on [double] are computed exactly:
    a number equals itself and is not greater than itself (no NaN), a
    quaternion rotates vectors linearly, the matrix of a unit quaternion
    transforms a point as the quaternion rotates it, and moving before
    turning is turning before moving by the turned vector.  The conversion
    to [float] is not assumed to be exact: it rounds, keeping zero and every
    value that is a [float] already. *)
Class OsgExactRotation {SC : Scalar} {OSG : Osg} : Prop := {
  seqb_refl : forall a, seqb a a = true;
  sgtb_irrefl : forall a, sgtb a a = false;
  to_float_zero : to_float s0 = s0;
  to_float_idem : forall a, to_float (to_float a) = to_float a;
  quat_rotate_zero :
    forall q, quat_rotate q (V3 s0 s0 s0) = V3 s0 s0 s0;
  quat_rotate_neg :
    forall q v, quat_rotate q (v3_neg v) = v3_neg (quat_rotate q v);
  quat_mul_unit :
    forall p q, quat_length2 p = s1 -> quat_length2 q = s1 ->
      quat_length2 (quat_mul p q) = s1;
  m_rotate_mul :
    forall p q, quat_length2 p = s1 -> quat_length2 q = s1 ->
      m_mul (m_rotate p) (m_rotate q) = m_rotate (quat_mul p q);
  m_preMult_rotate :
    forall q v, quat_length2 q = s1 ->
      m_preMult v (m_rotate q) = quat_rotate q v;
  m_preMult_rotate_then :
    forall v q b,
      m_preMult v (m_mul (m_rotate q) b)
      = m_preMult (m_preMult v (m_rotate q)) b;
  quat_rotate_getRotate :
    forall q v, quat_length2 q = s1 ->
      quat_rotate (m_getRotate (m_rotate q)) v = quat_rotate q v;
  m_translate_rotate :
    forall v q, quat_length2 q = s1 ->
      m_mul (m_translate v) (m_rotate q)
      = m_mul (m_rotate q) (m_translate (quat_rotate q v))
}.

(* ================================================================= *)
(** ** OpenSceneGraph over the real numbers *)

(** The OpenSceneGraph operations as the library (version 3) computes them,
    with [double] read as a real number: [osg/Quat], [osg/Matrixd] and
    [osgGA/StandardManipulator].  The scene-dependent drag handlers of
    [TerrainManipulator] and the pointer warp are stood in for by a log of
    the calls made. *)
Module RealOsg.

Local Open Scope R_scope.

Definition Rgtb (a b : R) : bool := if Rgt_dec a b then true else false.
Definition Rltb (a b : R) : bool := if Rlt_dec a b then true else false.
Definition Rleb (a b : R) : bool := if Rle_dec a b then true else false.
Definition Reqb (a b : R) : bool := if Req_dec_T a b then true else false.

#[export] Instance RealScalar : Scalar := {|
  scalar := R;
  s0 := 0; s1 := 1; s2 := 2;
  sadd := Rplus; ssub := Rminus; smul := Rmult; sdiv := Rdiv; sneg := Ropp;
  sgtb := Rgtb; seqb := Reqb;
  to_float := fun a => a
|}.

(** [a ^ b] on vectors: the cross product. *)
Definition cross (a b : Vec3) : Vec3 :=
  V3 (vy a * vz b - vz a * vy b)
     (vz a * vx b - vx a * vz b)
     (vx a * vy b - vy a * vx b).

(** [v.length2()], [v * k] and [v / k]. *)
Definition length2 (v : Vec3) : R := vx v * vx v + vy v * vy v + vz v * vz v.
Definition scale (v : Vec3) (k : R) : Vec3 := V3 (vx v * k) (vy v * k) (vz v * k).
Definition divide (v : Vec3) (k : R) : Vec3 := V3 (vx v / k) (vy v / k) (vz v / k).

(** [osg::Quat]: the four components [_v[0..3]], the last one real. *)
Record Quat : Type := Q4 { qx : R; qy : R; qz : R; qw : R }.

Definition Quat_identity : Quat := Q4 0 0 0 1.

(** [Quat::makeRotate(angle, x, y, z)]. *)
Definition Quat_angle_axis (angle : R) (axis : Vec3) : Quat :=
  let epsilon := 1 / 10000000 in
  let length := sqrt (vx axis * vx axis + vy axis * vy axis + vz axis * vz axis) in
  if Rltb length epsilon then Quat_identity
  else
    let inversenorm := 1 / length in
    let coshalfangle := cos (/ 2 * angle) in
    let sinhalfangle := sin (/ 2 * angle) in
    Q4 (vx axis * sinhalfangle * inversenorm)
       (vy axis * sinhalfangle * inversenorm)
       (vz axis * sinhalfangle * inversenorm)
       coshalfangle.

(** [Quat::operator*(rhs)]: the rotation [q] followed by [rhs]. *)
Definition Quat_mul (q rhs : Quat) : Quat :=
  Q4 (qw rhs * qx q + qx rhs * qw q + qy rhs * qz q - qz rhs * qy q)
     (qw rhs * qy q - qx rhs * qz q + qy rhs * qw q + qz rhs * qx q)
     (qw rhs * qz q + qx rhs * qy q - qy rhs * qx q + qz rhs * qw q)
     (qw rhs * qw q - qx rhs * qx q - qy rhs * qy q - qz rhs * qz q).

(** [Quat::operator*(const Vec3d&)]. *)
Definition Quat_rotate (q : Quat) (v : Vec3) : Vec3 :=
  let qvec := V3 (qx q) (qy q) (qz q) in
  let uv := cross qvec v in
  let uuv := cross qvec uv in
  let uv := scale uv (2 * qw q) in
  let uuv := scale uuv 2 in
  v3_add (v3_add v uv) uuv.

Definition Quat_length2 (q : Quat) : R :=
  qx q * qx q + qy q * qy q + qz q * qz q + qw q * qw q.

(** [Quat::inverse()]: [conj() / length2()]. *)
Definition Quat_inverse (q : Quat) : Quat :=
  let div := 1 / Quat_length2 q in
  Q4 (- qx q * div) (- qy q * div) (- qz q * div) (qw q * div).

(** [Quat::makeRotate(from, to)]: the shortest rotation of one vector onto
    another. *)
Definition Quat_from_to (from to : Vec3) : Quat :=
  let eps := 1 / 10000000 in
  let fromLen2 := length2 from in
  let normFrom := Rltb fromLen2 (1 - eps) || Rgtb fromLen2 (1 + eps) in
  let fromLen := if normFrom then sqrt fromLen2 else 1 in
  let sourceVector := if normFrom then divide from fromLen else from in
  let toLen2 := length2 to in
  let targetVector :=
    if Rltb toLen2 (1 - eps) || Rgtb toLen2 (1 + eps) then
      let toLen :=
        if Rgtb toLen2 (fromLen2 - eps) && Rltb toLen2 (fromLen2 + eps)
        then fromLen else sqrt toLen2 in
      divide to toLen
    else to in
  let dotProdPlus1 := 1 + v3_dot sourceVector targetVector in
  if Rltb dotProdPlus1 eps then
    if Rltb (Rabs (vx sourceVector)) (6 / 10) then
      let norm := sqrt (1 - vx sourceVector * vx sourceVector) in
      Q4 0 (vz sourceVector / norm) (- vy sourceVector / norm) 0
    else if Rltb (Rabs (vy sourceVector)) (6 / 10) then
      let norm := sqrt (1 - vy sourceVector * vy sourceVector) in
      Q4 (- vz sourceVector / norm) 0 (vx sourceVector / norm) 0
    else
      let norm := sqrt (1 - vz sourceVector * vz sourceVector) in
      Q4 (vy sourceVector / norm) (- vx sourceVector / norm) 0 0
  else
    let s := sqrt (/ 2 * dotProdPlus1) in
    let tmp := cross sourceVector (divide targetVector (2 * s)) in
    Q4 (vx tmp) (vy tmp) (vz tmp) s.

(** [osg::Matrixd]: the rows [_mat[0..3]]. *)
Record Row : Type := R4 { c0 : R; c1 : R; c2 : R; c3 : R }.
Record Matrixd : Type := M4 { r0 : Row; r1 : Row; r2 : Row; r3 : Row }.

Definition Matrix_identity : Matrixd :=
  M4 (R4 1 0 0 0) (R4 0 1 0 0) (R4 0 0 1 0) (R4 0 0 0 1).

Definition Matrix_translate (v : Vec3) : Matrixd :=
  M4 (R4 1 0 0 0) (R4 0 1 0 0) (R4 0 0 1 0) (R4 (vx v) (vy v) (vz v) 1).

(** The smallest positive normal [double],
    [std::numeric_limits<double>::min()]. *)
Definition DBL_MIN : R := / (2 ^ 1022).

(** [Matrixd::rotate(q)]: [makeIdentity()], then [setRotate(q)]. *)
Definition Matrix_rotate (q : Quat) : Matrixd :=
  let length2 := Quat_length2 q in
  if Rleb (Rabs length2) DBL_MIN then
    M4 (R4 0 0 0 0) (R4 0 0 0 0) (R4 0 0 0 0) (R4 0 0 0 1)
  else
    let rlength2 := if Reqb length2 1 then 2 else 2 / length2 in
    let x2 := rlength2 * qx q in
    let y2 := rlength2 * qy q in
    let z2 := rlength2 * qz q in
    let xx := qx q * x2 in
    let xy := qx q * y2 in
    let xz := qx q * z2 in
    let yy := qy q * y2 in
    let yz := qy q * z2 in
    let zz := qz q * z2 in
    let wx := qw q * x2 in
    let wy := qw q * y2 in
    let wz := qw q * z2 in
    M4 (R4 (1 - (yy + zz)) (xy + wz) (xz - wy) 0)
       (R4 (xy - wz) (1 - (xx + zz)) (yz + wx) 0)
       (R4 (xz + wy) (yz - wx) (1 - (xx + yy)) 0)
       (R4 0 0 0 1).

(** One row of a product: the row [a] times the matrix [b]. *)
Definition Row_mul (a : Row) (b : Matrixd) : Row :=
  R4 (c0 a * c0 (r0 b) + c1 a * c0 (r1 b) + c2 a * c0 (r2 b) + c3 a * c0 (r3 b))
     (c0 a * c1 (r0 b) + c1 a * c1 (r1 b) + c2 a * c1 (r2 b) + c3 a * c1 (r3 b))
     (c0 a * c2 (r0 b) + c1 a * c2 (r1 b) + c2 a * c2 (r2 b) + c3 a * c2 (r3 b))
     (c0 a * c3 (r0 b) + c1 a * c3 (r1 b) + c2 a * c3 (r2 b) + c3 a * c3 (r3 b)).

(** [Matrixd::operator*]. *)
Definition Matrix_mul (a b : Matrixd) : Matrixd :=
  M4 (Row_mul (r0 a) b) (Row_mul (r1 a) b) (Row_mul (r2 a) b) (Row_mul (r3 a) b).

(** [Matrixd::preMult(v)], that is [v * m]. *)
Definition Matrix_preMult (v : Vec3) (m : Matrixd) : Vec3 :=
  let d := 1 / (c3 (r0 m) * vx v + c3 (r1 m) * vy v + c3 (r2 m) * vz v + c3 (r3 m)) in
  V3 ((c0 (r0 m) * vx v + c0 (r1 m) * vy v + c0 (r2 m) * vz v + c0 (r3 m)) * d)
     ((c1 (r0 m) * vx v + c1 (r1 m) * vy v + c1 (r2 m) * vz v + c1 (r3 m)) * d)
     ((c2 (r0 m) * vx v + c2 (r1 m) * vy v + c2 (r2 m) * vz v + c2 (r3 m)) * d).

(** [Matrixd::getRotate()]: the quaternion of the upper-left 3x3 block,
    computed from the largest of the four traces. *)
Definition Matrix_getRotate (m : Matrixd) : Quat :=
  let tq0 := 1 + c0 (r0 m) + c1 (r1 m) + c2 (r2 m) in
  let tq1 := 1 + c0 (r0 m) - c1 (r1 m) - c2 (r2 m) in
  let tq2 := 1 - c0 (r0 m) + c1 (r1 m) - c2 (r2 m) in
  let tq3 := 1 - c0 (r0 m) - c1 (r1 m) + c2 (r2 m) in
  (* j = 0; for (i = 1; i < 4; i++) j = (tq[i] > tq[j]) ? i : j; *)
  let '(j, tqj) := (0%nat, tq0) in
  let '(j, tqj) := if Rgtb tq1 tqj then (1%nat, tq1) else (j, tqj) in
  let '(j, tqj) := if Rgtb tq2 tqj then (2%nat, tq2) else (j, tqj) in
  let '(j, tqj) := if Rgtb tq3 tqj then (3%nat, tq3) else (j, tqj) in
  let q :=
    match j with
    | 0%nat =>
        Q4 (c2 (r1 m) - c1 (r2 m)) (c0 (r2 m) - c2 (r0 m))
           (c1 (r0 m) - c0 (r1 m)) tq0
    | 1%nat =>
        Q4 tq1 (c1 (r0 m) + c0 (r1 m)) (c0 (r2 m) + c2 (r0 m))
           (c2 (r1 m) - c1 (r2 m))
    | 2%nat =>
        Q4 (c1 (r0 m) + c0 (r1 m)) tq2 (c2 (r1 m) + c1 (r2 m))
           (c0 (r2 m) - c2 (r0 m))
    | _ =>
        Q4 (c0 (r2 m) + c2 (r0 m)) (c2 (r1 m) + c1 (r2 m)) tq3
           (c1 (r0 m) - c0 (r1 m))
    end in
  let s := sqrt ((1 / 4) / tqj) in
  Q4 (qx q * s) (qy q * s) (qz q * s) (qw q * s).

(** [StandardManipulator::fixVerticalAxis(rotation, localUp,
    disallowFlipOver)]. *)
Definition Fix_vertical_axis (rotation : Quat) (localUp : Vec3)
    (disallowFlipOver : bool) : Quat :=
  (* camera direction vectors *)
  let cameraUp := Quat_rotate rotation (V3 0 1 0) in
  let cameraRight := Quat_rotate rotation (V3 1 0 0) in
  let cameraForward := Quat_rotate rotation (V3 0 0 (-1)) in
  (* computed directions *)
  let newCameraRight1 := cross cameraForward localUp in
  let newCameraRight2 := cross cameraUp localUp in
  let newCameraRight :=
    if Rgtb (length2 newCameraRight1) (length2 newCameraRight2)
    then newCameraRight1 else newCameraRight2 in
  let newCameraRight :=
    if Rltb (v3_dot newCameraRight cameraRight) 0
    then v3_neg newCameraRight else newCameraRight in
  (* vertical axis correction *)
  let rotationVerticalAxisCorrection := Quat_from_to cameraRight newCameraRight in
  (* rotate camera *)
  let rotation := Quat_mul rotation rotationVerticalAxisCorrection in
  if disallowFlipOver then
    (* make viewer's up vector to be always less than 90 degrees from "up" axis *)
    let newCameraUp := cross newCameraRight cameraForward in
    if Rltb (v3_dot newCameraUp localUp) 0 then
      Quat_mul (Quat_angle_axis PI (V3 0 0 1)) rotation
    else rotation
  else rotation.

(** [StandardManipulator::fixVerticalAxis(eye, rotation, disallowFlipOver)]:
    the up vector is that of the coordinate frame at [eye]; without a
    coordinate-frame callback this is the Z axis. *)
Definition Fix_vertical_axis_at (eye : Vec3) (rotation : Quat)
    (disallowFlipOver : bool) : Vec3 * Quat :=
  let localUp := V3 0 0 1 in
  (eye, Fix_vertical_axis rotation localUp disallowFlipOver).

(** The calls made to the scene-dependent part of the toolkit. *)
Inductive ToolkitCall : Type :=
| TerrainLeft (eventTimeDelta dx dy : R)
| TerrainMiddle (eventTimeDelta dx dy : R)
| TerrainRight (eventTimeDelta dx dy : R)
| WarpPointerToCenter.

#[export] Instance RealOsgOps : Osg := {|
  quat := Quat;
  matrix := Matrixd;
  quat_identity := Quat_identity;
  quat_angle_axis := Quat_angle_axis;
  quat_mul := Quat_mul;
  quat_rotate := Quat_rotate;
  quat_inverse := Quat_inverse;
  quat_length2 := Quat_length2;
  m_identity := Matrix_identity;
  m_translate := Matrix_translate;
  m_rotate := Matrix_rotate;
  m_mul := Matrix_mul;
  m_getRotate := Matrix_getRotate;
  m_preMult := Matrix_preMult;
  fixVerticalAxis := Fix_vertical_axis;
  fixVerticalAxis_at := Fix_vertical_axis_at;
  toolkit_state := list ToolkitCall
|}.

(** Every call is logged and reported as handled. *)
Definition logged (c : ToolkitCall) (s : GUIOSGManipulator)
    : GUIOSGManipulator :=
  set_toolkit (c :: toolkit s) s.

#[export] Instance RealBase : ManipulatorBase := {|
  Terrain_performMovementLeftMouseButton :=
    fun dt dx dy s => (true, logged (TerrainLeft dt dx dy) s);
  Terrain_performMovementMiddleMouseButton :=
    fun dt dx dy s => (true, logged (TerrainMiddle dt dx dy) s);
  Terrain_performMovementRightMouseButton :=
    fun dt dx dy s => (true, logged (TerrainRight dt dx dy) s);
  centerMousePointer := fun _ s => logged WarpPointerToCenter s
|}.

(** *** States and events of the scenarios *)

(** A manipulator with the eye height 1.7, the move speed the constructor
    sets and no pointer sample yet, for a mode, a vertical-axis flag, a
    rotation, a distance and a move vector; the centre is the origin. *)
Definition start (mode : ManipulatorMode) (verticalFixed : bool)
    (rotation : Quat) (distance : R) (move : Vec3) : GUIOSGManipulator :=
  {| myCurrentMode := mode; myWalkEyeHeight := 17 / 10;
     myMoveSpeed := DEFAULT_MOVESPEED_MIN; myMove := move; _center := V3 0 0 0; _rotation := rotation;
     _distance := distance; _verticalAxisFixed := verticalFixed;
     _ga_t0 := None; _ga_t1 := None; toolkit := [] |}.

Definition key_event (k : KeySymbol) : GUIEventAdapter :=
  {| getKey := k; getTime := 0; getXnormalized := 0; getYnormalized := 0 |}.

Definition pointer_event (time x y : R) : GUIEventAdapter :=
  {| getKey := KEY_other 0; getTime := time;
     getXnormalized := x; getYnormalized := y |}.

(** A level camera that looks down and ahead: its up vector is
    [(0, 7/25, 24/25)], its right vector [(1, 0, 0)]. *)
Definition pitched : Quat := Q4 (3 / 5) 0 0 (4 / 5).

(** The same view direction with the camera rolled upside down: the up
    vector is [(0, -7/25, -24/25)], the right vector [(-1, 0, 0)]. *)
Definition upside_down : Quat := Q4 0 (- 3 / 5) (4 / 5) 0.

End RealOsg.

(* ================================================================= *)
(** * Properties of the manipulator, for any arithmetic *)

Unset Implicit Arguments.

Lemma mode_eqb_eq (a b : ManipulatorMode) : mode_eqb a b = true <-> a = b.
Proof. destruct a, b; simpl; split; intro H; congruence. Qed.

Lemma mode_eqb_neq (a b : ManipulatorMode) : mode_eqb a b = false <-> a <> b.
Proof. destruct a, b; simpl; split; intro H; congruence. Qed.

Section Properties.
Context {SC : Scalar} {OSG : Osg} {BASE : ManipulatorBase}.

(** ** The pitch loop *)

Lemma halved_succ (k : nat) (pitch : scalar) :
  halved (S k) pitch = sdiv (halved k pitch) s2.
Proof. reflexivity. Qed.

Lemma halved_shift (k : nat) (pitch : scalar) :
  halved k (sdiv pitch s2) = halved (S k) pitch.
Proof.
  induction k as [|k IH]; [reflexivity|].
  rewrite halved_succ, IH. reflexivity.
Qed.

(** One pass of the loop, unfolded. *)
Lemma pitch_loop_step fuel rotation rotateYaw cameraRight localUp vaf my_dy i :
  pitch_loop (S fuel) rotation rotateYaw cameraRight localUp vaf my_dy i =
  if hemisphere_ok
       (candidate rotation rotateYaw cameraRight localUp vaf my_dy) localUp
  then Some (Accepted
               (candidate rotation rotateYaw cameraRight localUp vaf my_dy),
             my_dy, i)
  else if (i + 1 =? 20)%Z then Some (YawOnly, sdiv my_dy s2, (i + 1)%Z)
  else pitch_loop fuel rotation rotateYaw cameraRight localUp vaf
         (sdiv my_dy s2) (i + 1).
Proof. reflexivity. Qed.

(** An accepted candidate passed the hemisphere test, and is the candidate
    of the pitch the loop was left with. *)
Lemma pitch_loop_accepted fuel rotation rotateYaw cameraRight localUp vaf :
  forall my_dy i q dy j,
    pitch_loop fuel rotation rotateYaw cameraRight localUp vaf my_dy i
    = Some (Accepted q, dy, j) ->
    hemisphere_ok q localUp = true
    /\ q = candidate rotation rotateYaw cameraRight localUp vaf dy.
Proof.
  induction fuel as [|fuel IH]; intros my_dy i q dy j H.
  - discriminate H.
  - rewrite pitch_loop_step in H.
    destruct (hemisphere_ok _ localUp) eqn:Hok.
    + inversion H; subst. split; [exact Hok | reflexivity].
    + destruct (i + 1 =? 20)%Z; [discriminate H|].
      exact (IH _ _ _ _ _ H).
Qed.

(** From a counter [i] between 0 and 19, [20 - i] passes are enough: the
    loop is left with an accepted candidate after fewer than [20 - i]
    rejections, or with the yaw-only fallback when [i] reaches 20; the pitch
    was halved once per rejection. *)
Lemma pitch_loop_total rotation rotateYaw cameraRight localUp vaf :
  forall (n : nat) (my_dy : scalar) (i : Z),
    (0 <= i)%Z -> (i + Z.of_nat n = 20)%Z -> (0 < n)%nat ->
    exists e k,
      (k <= n)%nat
      /\ (forall fuel, (n <= fuel)%nat ->
            pitch_loop fuel rotation rotateYaw cameraRight localUp vaf my_dy i
            = Some (e, halved k my_dy, (i + Z.of_nat k)%Z))
      /\ ((e = YawOnly /\ k = n)
          \/ (exists q, e = Accepted q /\ (k < n)%nat)).
Proof.
  induction n as [|n IH]; intros my_dy i Hi Hn Hpos; [lia|].
  destruct (hemisphere_ok
              (candidate rotation rotateYaw cameraRight localUp vaf my_dy)
              localUp) eqn:Hok.
  - exists (Accepted
              (candidate rotation rotateYaw cameraRight localUp vaf my_dy)), 0%nat.
    split; [lia|]. split.
    + intros fuel Hfuel. destruct fuel as [|fuel]; [lia|].
      rewrite pitch_loop_step, Hok. simpl. now rewrite Z.add_0_r.
    + right. eexists. split; [reflexivity | lia].
  - destruct (Nat.eq_dec n 0) as [-> | Hn0].
    + exists YawOnly, 1%nat. split; [lia|]. split.
      * intros fuel Hfuel. destruct fuel as [|fuel]; [lia|].
        rewrite pitch_loop_step, Hok.
        replace (i + 1 =? 20)%Z with true by (symmetry; apply Z.eqb_eq; lia).
        reflexivity.
      * left. split; reflexivity.
    + destruct (IH (sdiv my_dy s2) (i + 1)%Z) as (e & k & Hk & Hrun & Hcase);
        [lia | lia | lia |].
      exists e, (S k). split; [lia|]. split.
      * intros fuel Hfuel. destruct fuel as [|fuel]; [lia|].
        rewrite pitch_loop_step, Hok.
        replace (i + 1 =? 20)%Z with false by (symmetry; apply Z.eqb_neq; lia).
        rewrite (Hrun fuel) by lia.
        rewrite halved_shift.
        replace (i + 1 + Z.of_nat k)%Z with (i + Z.of_nat (S k))%Z by lia.
        reflexivity.
      * destruct Hcase as [[He Hkn] | (q & He & Hkn)].
        -- left. split; [exact He | lia].
        -- right. exists q. split; [exact He | lia].
Qed.

(** When every one of the next candidates is rejected, the loop is left
    through the fallback, after halving the pitch once per pass. *)
Lemma pitch_loop_all_rejected rotation rotateYaw cameraRight localUp vaf :
  forall (n : nat) (my_dy : scalar) (i : Z),
    (i + Z.of_nat n = 20)%Z -> (0 < n)%nat ->
    (forall k, (k < n)%nat ->
       hemisphere_ok
         (candidate rotation rotateYaw cameraRight localUp vaf
            (halved k my_dy)) localUp = false) ->
    forall fuel, (n <= fuel)%nat ->
      pitch_loop fuel rotation rotateYaw cameraRight localUp vaf my_dy i
      = Some (YawOnly, halved n my_dy, 20%Z).
Proof.
  induction n as [|n IH]; intros my_dy i Hn Hpos Hrej fuel Hfuel; [lia|].
  destruct fuel as [|fuel]; [lia|].
  assert (H0 := Hrej 0%nat ltac:(lia)).
  change (halved 0 my_dy) with my_dy in H0.
  rewrite pitch_loop_step, H0.
  destruct (Nat.eq_dec n 0) as [-> | Hn0].
  - replace (i + 1 =? 20)%Z with true by (symmetry; apply Z.eqb_eq; lia).
    replace (i + 1)%Z with 20%Z by lia. reflexivity.
  - replace (i + 1 =? 20)%Z with false by (symmetry; apply Z.eqb_neq; lia).
    rewrite (IH (sdiv my_dy s2) (i + 1)%Z); try lia.
    + now rewrite halved_shift.
    + intros k Hk. rewrite halved_shift. apply Hrej. lia.
Qed.

(** The loop of the source installs, through [setByMatrix], what the
    observed loop is left with. *)
Lemma rotateYawPitch_loop_exit rotation rotateYaw cameraRight localUp vaf eye s :
  forall fuel my_dy i,
    rotateYawPitch_loop fuel rotation rotateYaw cameraRight localUp vaf eye
      my_dy i s
    = match pitch_loop fuel rotation rotateYaw cameraRight localUp vaf my_dy i
      with
      | Some (Accepted newRotation, _, _) =>
          Some (setByMatrix
                  (m_mul (m_rotate newRotation) (m_translate eye)) s)
      | Some (YawOnly, _, _) =>
          Some (setByMatrix
                  (m_mul (m_mul (m_rotate rotation) (m_rotate rotateYaw))
                         (m_translate eye)) s)
      | None => None
      end.
Proof.
  induction fuel as [|fuel IH]; intros my_dy i; [reflexivity|].
  rewrite pitch_loop_step. simpl rotateYawPitch_loop.
  fold (candidate rotation rotateYaw cameraRight localUp vaf my_dy).
  fold (hemisphere_ok
          (candidate rotation rotateYaw cameraRight localUp vaf my_dy)
          localUp).
  destruct (hemisphere_ok _ localUp); [reflexivity|].
  destruct (i + 1 =? 20)%Z; [reflexivity|]. apply IH.
Qed.

(** [rotateYawPitch] is: enter, run the loop, install what it is left
    with. *)
Lemma rotateYawPitch_exit (fuel : nat) (r : QuatRef) (yaw pitch : scalar)
    (localUp : Vec3) (s : GUIOSGManipulator) :
  rotateYawPitch fuel r yaw pitch localUp s
  = let f := rotateYawPitch_enter r yaw localUp s in
    match
      pitch_loop fuel (yp_rotation f) (yp_rotateYaw f) (yp_cameraRight f)
        localUp (yp_verticalAxisFixed f) pitch 0
    with
    | Some (e, _, _) => Some (rotateYawPitch_leave f e)
    | None => None
    end.
Proof.
  unfold rotateYawPitch, rotateYawPitch_enter.
  destruct (if v3_neqb localUp (V3 s0 s0 s0)
            then assign r (fixVerticalAxis (deref r s) localUp true) s
            else (r, s)) as [r' s'].
  cbv zeta. cbn [yp_rotation yp_rotateYaw yp_cameraRight yp_eye yp_state
                 yp_verticalAxisFixed].
  rewrite rotateYawPitch_loop_exit.
  destruct (pitch_loop fuel _ _ _ localUp _ pitch 0) as [[[[q|] dy] i]|];
    reflexivity.
Qed.

(** [rotateYawPitch] returns as soon as it is given 20 passes. *)
Lemma rotateYawPitch_total (r : QuatRef) (yaw pitch : scalar)
    (localUp : Vec3) (s : GUIOSGManipulator) :
  exists s', forall fuel, (20 <= fuel)%nat ->
    rotateYawPitch fuel r yaw pitch localUp s = Some s'.
Proof.
  set (f := rotateYawPitch_enter r yaw localUp s).
  destruct (pitch_loop_total (yp_rotation f) (yp_rotateYaw f)
              (yp_cameraRight f) localUp (yp_verticalAxisFixed f)
              20 pitch 0%Z) as (e & k & _ & Hrun & _); try lia.
  exists (rotateYawPitch_leave f e). intros fuel Hfuel.
  rewrite rotateYawPitch_exit. cbv zeta. fold f.
  now rewrite (Hrun fuel Hfuel).
Qed.

(** ** C1: accepted candidates are upright *)

(** [setByMatrix], in one piece: the decomposition of the matrix, then the
    re-levelling when the vertical axis is fixed. *)
Lemma setByMatrix_stores (m : matrix) (s : GUIOSGManipulator) :
  setByMatrix m s
  = (if _verticalAxisFixed s then
       let '(c, q) :=
         fixVerticalAxis_at
           (m_preMult (V3 s0 s0 (sneg (_distance s))) m) (m_getRotate m)
           true in
       set_rotation q (set_center c s)
     else
       set_rotation (m_getRotate m)
         (set_center (m_preMult (V3 s0 s0 (sneg (_distance s))) m) s)).
Proof.
  unfold setByMatrix, getVerticalAxisFixed.
  destruct s as [mode height speed move center rotation distance vaf t0 t1 tk].
  simpl. destruct vaf; [|reflexivity].
  now destruct (fixVerticalAxis_at _ _ true).
Qed.

Lemma set_center_same (s : GUIOSGManipulator) : set_center (_center s) s = s.
Proof. now destruct s. Qed.

Lemma setByMatrix_rest (m : matrix) (s : GUIOSGManipulator) :
  rest_of (setByMatrix m s) = rest_of s.
Proof.
  rewrite setByMatrix_stores.
  destruct (_verticalAxisFixed s) eqn:Hv.
  - destruct (fixVerticalAxis_at _ _ true). reflexivity.
  - reflexivity.
Qed.

Lemma rotateYawPitch_enter_rest (r : QuatRef) (yaw : scalar)
    (localUp : Vec3) (s : GUIOSGManipulator) :
  rest_of (yp_state (rotateYawPitch_enter r yaw localUp s)) = rest_of s.
Proof.
  unfold rotateYawPitch_enter.
  destruct (v3_neqb localUp (V3 s0 s0 s0)); [|reflexivity].
  destruct r; reflexivity.
Qed.

(** The entry into [rotateYawPitch] keeps the distance and the
    vertical-axis flag. *)
Lemma rotateYawPitch_enter_keeps (r : QuatRef) (yaw : scalar)
    (localUp : Vec3) (s : GUIOSGManipulator) :
  _distance (yp_state (rotateYawPitch_enter r yaw localUp s)) = _distance s
  /\ _verticalAxisFixed (yp_state (rotateYawPitch_enter r yaw localUp s))
     = _verticalAxisFixed s.
Proof.
  assert (H := rotateYawPitch_enter_rest r yaw localUp s).
  unfold rest_of in H. inversion H. split; reflexivity.
Qed.

(** The rotation that [setByMatrix] stores: the one read from the matrix,
    re-levelled when the manipulator's vertical axis is fixed. *)
Lemma setByMatrix_rotation (m : matrix) (s : GUIOSGManipulator) :
  _rotation (setByMatrix m s)
  = (if _verticalAxisFixed s then
       snd (fixVerticalAxis_at
              (m_preMult (V3 s0 s0 (sneg (_distance s))) m) (m_getRotate m)
              true)
     else m_getRotate m).
Proof.
  rewrite setByMatrix_stores.
  destruct (_verticalAxisFixed s); [|now destruct s].
  destruct (fixVerticalAxis_at _ _ true). now destruct s.
Qed.


(** ** C2: the retry loop is bounded *)

(** C2.  For every input the loop of [rotateYawPitch] is left within 20
    passes: with 20 passes or more allowed the call returns, after [k <= 20]
    halvings of the pitch, either with a candidate accepted after [k < 20]
    rejections or, after the twentieth rejection, through the fallback.
    When all twenty candidates (for the pitch halved 0 to 19 times) fail the
    hemisphere test, the pitch is halved exactly 20 times and the state
    installed is that of [rotate(rotation) * rotate(rotateYaw) *
    translate(eye)]: the yaw alone, no pitch.  No result of the call is an
    error. *)
Theorem rotateYawPitch_retry_bound
    (r : QuatRef) (yaw pitch : scalar) (localUp : Vec3)
    (s : GUIOSGManipulator) :
  let f := rotateYawPitch_enter r yaw localUp s in
  let loop fuel :=
    pitch_loop fuel (yp_rotation f) (yp_rotateYaw f) (yp_cameraRight f)
      localUp (yp_verticalAxisFixed f) pitch 0 in
  (exists e k,
     (k <= 20)%nat
     /\ (forall fuel, (20 <= fuel)%nat ->
           loop fuel = Some (e, halved k pitch, Z.of_nat k)
           /\ rotateYawPitch fuel r yaw pitch localUp s
              = Some (rotateYawPitch_leave f e))
     /\ ((e = YawOnly /\ k = 20%nat)
         \/ (exists q, e = Accepted q /\ (k < 20)%nat)))
  /\ ((forall k, (k < 20)%nat ->
         hemisphere_ok
           (candidate (yp_rotation f) (yp_rotateYaw f) (yp_cameraRight f)
              localUp (yp_verticalAxisFixed f) (halved k pitch))
           localUp = false) ->
      forall fuel, (20 <= fuel)%nat ->
        loop fuel = Some (YawOnly, halved 20 pitch, 20%Z)
        /\ rotateYawPitch fuel r yaw pitch localUp s
           = Some (setByMatrix
                     (m_mul (m_mul (m_rotate (yp_rotation f))
                                   (m_rotate (yp_rotateYaw f)))
                            (m_translate (yp_eye f)))
                     (yp_state f))).
Proof.
  intros f loop. split.
  - destruct (pitch_loop_total (yp_rotation f) (yp_rotateYaw f)
                (yp_cameraRight f) localUp (yp_verticalAxisFixed f)
                20 pitch 0%Z) as (e & k & Hk & Hrun & Hcase); try lia.
    exists e, k. split; [exact Hk|]. split; [|exact Hcase].
    intros fuel Hfuel. unfold loop. rewrite rotateYawPitch_exit. cbv zeta.
    fold f. rewrite (Hrun fuel Hfuel). split; reflexivity.
  - intros Hrej fuel Hfuel.
    assert (Hloop : loop fuel = Some (YawOnly, halved 20 pitch, 20%Z)).
    { unfold loop. apply pitch_loop_all_rejected with (n := 20%nat);
        [reflexivity | lia | exact Hrej | exact Hfuel]. }
    split; [exact Hloop|].
    rewrite rotateYawPitch_exit. cbv zeta. fold f. unfold loop in Hloop.
    now rewrite Hloop.
Qed.

(** ** C6: the drag handlers *)

(** C6.  In terrain mode a left-button drag is the base class's
    middle-button drag and a middle-button drag its left-button drag, both
    with the same [(dt, dx, dy)], and a right-button drag is the base
    class's right-button drag with [(dt, dx, -dy)].  In every other mode the
    three handlers return [false] and leave the object as it is, without a
    call to the base class. *)
Theorem drag_handlers_dispatch
    (eventTimeDelta dx dy : scalar) (s : GUIOSGManipulator) :
  (myCurrentMode s = MODE_TERRAIN ->
     performMovementLeftMouseButton eventTimeDelta dx dy s
     = Terrain_performMovementMiddleMouseButton eventTimeDelta dx dy s
     /\ performMovementMiddleMouseButton eventTimeDelta dx dy s
        = Terrain_performMovementLeftMouseButton eventTimeDelta dx dy s
     /\ performMovementRightMouseButton eventTimeDelta dx dy s
        = Terrain_performMovementRightMouseButton eventTimeDelta dx
            (sneg dy) s)
  /\ (myCurrentMode s <> MODE_TERRAIN ->
        performMovementLeftMouseButton eventTimeDelta dx dy s = (false, s)
        /\ performMovementMiddleMouseButton eventTimeDelta dx dy s = (false, s)
        /\ performMovementRightMouseButton eventTimeDelta dx dy s = (false, s)).
Proof.
  unfold performMovementLeftMouseButton, performMovementMiddleMouseButton,
    performMovementRightMouseButton.
  split; intro Hmode.
  - apply mode_eqb_eq in Hmode. rewrite Hmode. repeat split.
  - apply mode_eqb_neq in Hmode. rewrite Hmode. repeat split.
Qed.

(** ** C7: pointer moves that are not handled *)

Lemma addMouseEvent_camera (ea : GUIEventAdapter) (s : GUIOSGManipulator) :
  camera_of (addMouseEvent ea s) = camera_of s
  /\ _ga_t0 (addMouseEvent ea s) = Some ea
  /\ _ga_t1 (addMouseEvent ea s) = _ga_t0 s.
Proof. repeat split. Qed.

(** A pointer move with a previous sample and a non-zero delta is handled,
    whatever the rotation computes. *)
Lemma handleMouseMove_handled (fuel : nat) (ea t1 : GUIEventAdapter)
    (s : GUIOSGManipulator) :
  myCurrentMode s <> MODE_TERRAIN ->
  _ga_t0 s = Some t1 ->
  seqb (to_float (smul (getXnormalized ea) (ssub (getTime ea) (getTime t1))))
       s0
  && seqb (to_float (smul (getYnormalized ea) (ssub (getTime ea) (getTime t1))))
       s0 = false ->
  (20 <= fuel)%nat ->
  exists s',
    handleMouseMove fuel ea s = Some (true, s')
    /\ rotateYawPitch fuel RefRotation
         (to_float (smul (getXnormalized ea) (ssub (getTime ea) (getTime t1))))
         (to_float (smul (getYnormalized ea) (ssub (getTime ea) (getTime t1))))
         Z_AXIS (centerMousePointer ea (addMouseEvent ea s)) = Some s'.
Proof.
  intros Hmode Ht0 Hdelta Hfuel.
  destruct (rotateYawPitch_total RefRotation
              (to_float (smul (getXnormalized ea)
                           (ssub (getTime ea) (getTime t1))))
              (to_float (smul (getYnormalized ea)
                           (ssub (getTime ea) (getTime t1))))
              Z_AXIS (centerMousePointer ea (addMouseEvent ea s)))
    as [s' Hs'].
  exists s'. split; [|exact (Hs' fuel Hfuel)].
  assert (Hdm : handleMouseDeltaMovement fuel ea s = Some (true, s')).
  { unfold handleMouseDeltaMovement.
    destruct (addMouseEvent_camera ea s) as (_ & H0 & H1).
    rewrite H0, H1, Ht0. cbv zeta. rewrite Hdelta.
    unfold performMouseDeltaMovement. now rewrite (Hs' fuel Hfuel). }
  unfold handleMouseMove.
  destruct (myCurrentMode s); [exact Hdm | exact Hdm | congruence].
Qed.

(** C7 (as amended).  [handleMouseMove] returns [false] and changes nothing
    at all in terrain mode.  In ego and walk mode it first records the
    event as the newest pointer sample; it then returns [false], with
    everything but the two stored samples unchanged, when there was no
    earlier sample, and when the two deltas are both exactly zero.  The
    deltas are the normalized coordinates of the newest sample, each
    multiplied by the time passed since the previous sample and converted to
    [float]: they are not differences of coordinates.  When one of them is
    not zero the call re-centres the pointer, rotates and returns [true]. *)
Theorem handleMouseMove_not_handled
    (fuel : nat) (ea : GUIEventAdapter) (s : GUIOSGManipulator) :
  (myCurrentMode s = MODE_TERRAIN ->
     handleMouseMove fuel ea s = Some (false, s))
  /\ (myCurrentMode s <> MODE_TERRAIN ->
      camera_of (addMouseEvent ea s) = camera_of s
      /\ (_ga_t0 s = None ->
            handleMouseMove fuel ea s = Some (false, addMouseEvent ea s))
      /\ (forall t1, _ga_t0 s = Some t1 ->
            let dt := ssub (getTime ea) (getTime t1) in
            let dx := to_float (smul (getXnormalized ea) dt) in
            let dy := to_float (smul (getYnormalized ea) dt) in
            (seqb dx s0 && seqb dy s0 = true ->
               handleMouseMove fuel ea s = Some (false, addMouseEvent ea s))
            /\ (seqb dx s0 && seqb dy s0 = false -> (20 <= fuel)%nat ->
                  exists s',
                    handleMouseMove fuel ea s = Some (true, s')
                    /\ rotateYawPitch fuel RefRotation dx dy Z_AXIS
                         (centerMousePointer ea (addMouseEvent ea s))
                       = Some s'))).
Proof.
  split.
  - intro Hmode. unfold handleMouseMove. now rewrite Hmode.
  - intro Hmode.
    assert (Hmm : handleMouseMove fuel ea s
                  = handleMouseDeltaMovement fuel ea s).
    { unfold handleMouseMove.
      destruct (myCurrentMode s); [reflexivity | reflexivity | congruence]. }
    destruct (addMouseEvent_camera ea s) as (Hcam & H0 & H1).
    split; [exact Hcam|]. split.
    + intro Ht0. rewrite Hmm. unfold handleMouseDeltaMovement.
      now rewrite H0, H1, Ht0.
    + intros t1 Ht0 dt dx dy. split.
      * intro Hzero. rewrite Hmm. unfold handleMouseDeltaMovement.
        rewrite H0, H1, Ht0. cbv zeta. fold dt. fold dx. fold dy.
        now rewrite Hzero.
      * intros Hdelta Hfuel.
        exact (handleMouseMove_handled fuel ea t1 s Hmode Ht0 Hdelta Hfuel).
Qed.

(** ** C8: releasing a movement key *)

(** C8.  The key-up event of each of the four movement keys returns [true]
    and sets all three components of [myMove] to zero, whatever they were,
    leaving the rest of the object unchanged; so after key-down Up and
    key-up Up the move vector is [(0,0,0)]. *)
Theorem handleKeyUp_clears_move :
  (forall ea s, movement_key (getKey ea) = true ->
     handleKeyUp ea s = (true, set_move (V3 s0 s0 s0) s)
     /\ myMove (snd (handleKeyUp ea s)) = V3 s0 s0 s0)
  /\ (forall down up s, getKey down = KEY_Up -> getKey up = KEY_Up ->
        fst (handleKeyUp up (snd (handleKeyDown down s))) = true
        /\ myMove (snd (handleKeyUp up (snd (handleKeyDown down s))))
           = V3 s0 s0 s0).
Proof.
  assert (Hup : forall ea s, movement_key (getKey ea) = true ->
                  handleKeyUp ea s = (true, set_move (V3 s0 s0 s0) s)).
  { intros ea s Hk. unfold handleKeyUp.
    destruct (getKey ea); simpl in Hk; try discriminate; reflexivity. }
  split.
  - intros ea s Hk. rewrite (Hup ea s Hk). split; reflexivity.
  - intros down up s _ Hk.
    rewrite Hup by (now rewrite Hk). split; reflexivity.
Qed.

(** ** C9: the mode toggle *)

Lemma handleKeyDown_mode (ea : GUIEventAdapter) (s : GUIOSGManipulator) :
  myCurrentMode (snd (handleKeyDown ea s)) = myCurrentMode s.
Proof. unfold handleKeyDown. destruct (getKey ea); reflexivity. Qed.

Lemma handleKeyUp_mode (ea : GUIEventAdapter) (s : GUIOSGManipulator) :
  myCurrentMode (snd (handleKeyUp ea s)) =
  match getKey ea with
  | KEY_F =>
      match myCurrentMode s with
      | MODE_EGO => MODE_TERRAIN
      | MODE_WALK => MODE_TERRAIN
      | MODE_TERRAIN => MODE_EGO
      end
  | _ => myCurrentMode s
  end.
Proof.
  unfold handleKeyUp.
  destruct (getKey ea); try reflexivity.
  destruct (myCurrentMode s); reflexivity.
Qed.

Lemma handleKey_never_walk (e : KeyEvent) (s : GUIOSGManipulator) :
  myCurrentMode s <> MODE_WALK -> myCurrentMode (handleKey e s) <> MODE_WALK.
Proof.
  intro H. destruct e as [ea | ea]; simpl.
  - now rewrite handleKeyDown_mode.
  - rewrite handleKeyUp_mode.
    destruct (getKey ea); try exact H.
    destruct (myCurrentMode s); congruence.
Qed.

(** C9.  A key-up of the toggle key returns [true] and takes ego mode to
    terrain mode, walk mode to terrain mode and terrain mode to ego mode.
    Hence, starting in ego or terrain mode, no sequence of key events
    (presses and releases of any keys, the toggle key among them) reaches
    walk mode; and two toggles from ego mode lead through terrain mode back
    to ego mode. *)
Theorem toggle_key_transitions :
  (forall ea s, getKey ea = KEY_F ->
     fst (handleKeyUp ea s) = true
     /\ myCurrentMode (snd (handleKeyUp ea s))
        = match myCurrentMode s with
          | MODE_EGO => MODE_TERRAIN
          | MODE_WALK => MODE_TERRAIN
          | MODE_TERRAIN => MODE_EGO
          end)
  /\ (forall es s, myCurrentMode s <> MODE_WALK ->
        myCurrentMode (handleKeys es s) <> MODE_WALK)
  /\ (forall ea1 ea2 s, getKey ea1 = KEY_F -> getKey ea2 = KEY_F ->
        myCurrentMode s = MODE_EGO ->
        myCurrentMode (snd (handleKeyUp ea1 s)) = MODE_TERRAIN
        /\ myCurrentMode (snd (handleKeyUp ea2 (snd (handleKeyUp ea1 s))))
           = MODE_EGO).
Proof.
  split; [|split].
  - intros ea s Hk. split.
    + unfold handleKeyUp. now rewrite Hk.
    + now rewrite handleKeyUp_mode, Hk.
  - intros es. unfold handleKeys.
    induction es as [|e es IH]; intros s Hs; simpl.
    + exact Hs.
    + apply IH. now apply handleKey_never_walk.
  - intros ea1 ea2 s H1 H2 Hs.
    rewrite !handleKeyUp_mode, H1, H2, Hs. split; reflexivity.
Qed.

End Properties.

(* ================================================================= *)
(** * Properties of the view matrices, in exact arithmetic *)

Section ExactProperties.
Context {SC : Scalar} {OSG : Osg} {BASE : ManipulatorBase}.

(** ** C3: the view matrix of terrain mode *)

Lemma getMatrix_in_terrain (s : GUIOSGManipulator) :
  myCurrentMode s = MODE_TERRAIN ->
  getMatrix s
  = m_mul (m_mul (m_translate (V3 s0 s0 (_distance s)))
                 (m_rotate (_rotation s)))
          (m_translate (_center s)).
Proof.
  intro Hmode. apply mode_eqb_eq in Hmode.
  unfold getMatrix. now rewrite Hmode.
Qed.

(** C3.  In terrain mode [getMatrix] is [translate(0,0,_distance) *
    rotate(_rotation) * translate(_center)], whatever the arithmetic.  In
    exact arithmetic, with the centre at the origin and the identity
    rotation, this is [translate(0,0,_distance)]: [translate(0,0,10)] for
    the distance 10. *)
Theorem getMatrix_terrain (s : GUIOSGManipulator) :
  myCurrentMode s = MODE_TERRAIN ->
  getMatrix s
  = m_mul (m_mul (m_translate (V3 s0 s0 (_distance s)))
                 (m_rotate (_rotation s)))
          (m_translate (_center s))
  /\ (OsgExact -> _center s = V3 s0 s0 s0 -> _rotation s = quat_identity ->
      getMatrix s = m_translate (V3 s0 s0 (_distance s))).
Proof.
  intro Hmode. assert (H := getMatrix_in_terrain s Hmode).
  split; [exact H|].
  intros EX Hc Hq. rewrite H, Hc, Hq.
  now rewrite m_rotate_identity, m_translate_zero, !m_mul_1_r.
Qed.

Context {EX : OsgExact}.

Lemma sadd_opp_r (a : scalar) : sadd a (sneg a) = s0.
Proof. exact (Ropp_def scalar_ring a). Qed.

Lemma sadd_opp_l (a : scalar) : sadd (sneg a) a = s0.
Proof. rewrite (Radd_comm scalar_ring). apply sadd_opp_r. Qed.

Lemma sadd_0_l (a : scalar) : sadd s0 a = a.
Proof. exact (Radd_0_l scalar_ring a). Qed.

Lemma v3_add_neg_r (v : Vec3) : v3_add v (v3_neg v) = V3 s0 s0 s0.
Proof. destruct v. unfold v3_add, v3_neg. simpl. now rewrite !sadd_opp_r. Qed.

Lemma v3_add_neg_l (v : Vec3) : v3_add (v3_neg v) v = V3 s0 s0 s0.
Proof. destruct v. unfold v3_add, v3_neg. simpl. now rewrite !sadd_opp_l. Qed.

Lemma v3_add_0_l (v : Vec3) : v3_add (V3 s0 s0 s0) v = v.
Proof. destruct v. unfold v3_add. simpl. now rewrite !sadd_0_l. Qed.

Lemma translate_neg_r (v : Vec3) :
  m_mul (m_translate v) (m_translate (v3_neg v)) = m_identity.
Proof. now rewrite m_translate_add, v3_add_neg_r, m_translate_zero. Qed.

Lemma translate_neg_l (v : Vec3) :
  m_mul (m_translate (v3_neg v)) (m_translate v) = m_identity.
Proof. now rewrite m_translate_add, v3_add_neg_l, m_translate_zero. Qed.

Lemma translate_distance_r (d : scalar) :
  m_mul (m_translate (V3 s0 s0 d)) (m_translate (V3 s0 s0 (sneg d)))
  = m_identity.
Proof.
  rewrite m_translate_add. unfold v3_add. simpl.
  now rewrite sadd_0_l, sadd_opp_r, m_translate_zero.
Qed.

Lemma translate_distance_l (d : scalar) :
  m_mul (m_translate (V3 s0 s0 (sneg d))) (m_translate (V3 s0 s0 d))
  = m_identity.
Proof.
  rewrite m_translate_add. unfold v3_add. simpl.
  now rewrite sadd_0_l, sadd_opp_l, m_translate_zero.
Qed.

(** A product is inverted by the product of the inverses, in reverse. *)
Lemma m_mul_inverse2 (a a' b b' : matrix) :
  m_mul a a' = m_identity -> m_mul b b' = m_identity ->
  m_mul (m_mul a b) (m_mul b' a') = m_identity.
Proof.
  intros Ha Hb.
  rewrite m_mul_assoc, <- (m_mul_assoc a b b'), Hb, m_mul_1_r. exact Ha.
Qed.

Lemma m_mul_inverse3 (a a' b b' c c' : matrix) :
  m_mul a a' = m_identity -> m_mul b b' = m_identity ->
  m_mul c c' = m_identity ->
  m_mul (m_mul (m_mul a b) c) (m_mul (m_mul c' b') a') = m_identity.
Proof.
  intros Ha Hb Hc.
  rewrite <- (m_mul_assoc c' b' a').
  apply m_mul_inverse2; [|exact Hc].
  rewrite m_mul_assoc, <- (m_mul_assoc a b b'), Hb, m_mul_1_r. exact Ha.
Qed.

(** ** C4: the inverse view matrix *)

(** C4 (as amended).  [getInverseMatrix] is written with
    [_rotation.inverse()] and the negated translations, in the reverse order
    of [getMatrix]; no matrix is inverted numerically.  In exact arithmetic
    it is the inverse of [getMatrix] in every mode (the product of the two,
    in either order, is the identity) whenever [rotate] gives [_rotation]
    and its inverse the matrices of a unit quaternion [u] and of the inverse
    of [u].  This is so for every unit quaternion, with [u] the quaternion
    itself; and since [rotate] normalises, for every quaternion that is not
    zero (lemma [Matrix_rotate_normalized] of the real-number model: the
    squared lengths of the quaternion and of its inverse are above
    [DBL_MIN]).  For the zero quaternion the products are not the
    identity. *)
Theorem getInverseMatrix_inverts (s : GUIOSGManipulator) (u : quat) :
  quat_length2 u = s1 ->
  m_rotate (_rotation s) = m_rotate u ->
  m_rotate (quat_inverse (_rotation s)) = m_rotate (quat_inverse u) ->
  m_mul (getMatrix s) (getInverseMatrix s) = m_identity
  /\ m_mul (getInverseMatrix s) (getMatrix s) = m_identity
  /\ getInverseMatrix s
     = (if mode_eqb (myCurrentMode s) MODE_TERRAIN then
          m_mul (m_mul (m_translate (v3_neg (_center s)))
                       (m_rotate (quat_inverse (_rotation s))))
                (m_translate (V3 s0 s0 (sneg (_distance s))))
        else
          m_mul (m_translate (v3_neg (eye_of s)))
                (m_rotate (quat_inverse (_rotation s)))).
Proof.
  intros Hu Hq Hinv. unfold getMatrix, getInverseMatrix.
  destruct (mode_eqb (myCurrentMode s) MODE_TERRAIN); cbv zeta.
  - split; [|split; [|reflexivity]]; rewrite Hq, Hinv.
    + apply m_mul_inverse3.
      * apply translate_distance_r.
      * now apply m_rotate_inverse_r.
      * apply translate_neg_r.
    + apply m_mul_inverse3.
      * apply translate_neg_l.
      * now apply m_rotate_inverse_l.
      * apply translate_distance_l.
  - split; [|split; [|reflexivity]]; rewrite Hq, Hinv.
    + apply m_mul_inverse2.
      * now apply m_rotate_inverse_r.
      * apply translate_neg_r.
    + apply m_mul_inverse2.
      * apply translate_neg_l.
      * now apply m_rotate_inverse_l.
Qed.

(** ** C5: from the view matrix back to centre and rotation *)

Lemma getMatrix_terrain_center (s : GUIOSGManipulator) :
  myCurrentMode s = MODE_TERRAIN ->
  m_preMult (V3 s0 s0 (sneg (_distance s))) (getMatrix s) = _center s.
Proof.
  intro Hmode. rewrite (getMatrix_in_terrain s Hmode).
  rewrite <- !m_mul_assoc, m_preMult_translate_mul.
  unfold v3_add at 1. simpl.
  rewrite sadd_0_l, sadd_opp_l, m_preMult_rotate_mul, m_preMult_translate.
  apply v3_add_0_l.
Qed.

Lemma getMatrix_terrain_rotation (s : GUIOSGManipulator) :
  myCurrentMode s = MODE_TERRAIN ->
  m_getRotate (getMatrix s) = m_getRotate (m_rotate (_rotation s)).
Proof.
  intro Hmode. rewrite (getMatrix_in_terrain s Hmode).
  now rewrite <- !m_mul_assoc, m_getRotate_translate_l,
    m_getRotate_translate_r.
Qed.

(** C5 (as amended).  In terrain mode and exact arithmetic, for every
    centre and every unit quaternion, decomposing the matrix of [getMatrix]
    gives the original centre, as [(0,0,-_distance)] transformed by the
    matrix, and a quaternion with the rotation matrix of the original one.
    [setByMatrix] stores these two; with the vertical axis fixed it stores
    what the re-levelling makes of them.  So centre and rotation are
    restored whenever the vertical axis is not fixed or the re-levelling
    leaves the decomposition as it is. *)
Theorem setByMatrix_getMatrix_terrain (s : GUIOSGManipulator) :
  myCurrentMode s = MODE_TERRAIN ->
  quat_length2 (_rotation s) = s1 ->
  let m := getMatrix s in
  m_preMult (V3 s0 s0 (sneg (_distance s))) m = _center s
  /\ m_rotate (m_getRotate m) = m_rotate (_rotation s)
  /\ setByMatrix m s
     = (if _verticalAxisFixed s then
          let '(c, q) :=
            fixVerticalAxis_at (_center s) (m_getRotate m) true in
          set_rotation q (set_center c s)
        else set_rotation (m_getRotate m) s)
  /\ ((_verticalAxisFixed s = true ->
       fixVerticalAxis_at (_center s) (m_getRotate m) true
       = (_center s, m_getRotate m)) ->
      _center (setByMatrix m s) = _center s
      /\ m_rotate (_rotation (setByMatrix m s)) = m_rotate (_rotation s)).
Proof.
  intros Hmode Hq m.
  assert (Hc : m_preMult (V3 s0 s0 (sneg (_distance s))) m = _center s)
    by (apply getMatrix_terrain_center; exact Hmode).
  assert (Hr : m_rotate (m_getRotate m) = m_rotate (_rotation s)).
  { unfold m. rewrite getMatrix_terrain_rotation by exact Hmode.
    now apply m_getRotate_rotate. }
  assert (Hset : setByMatrix m s
                 = (if _verticalAxisFixed s then
                      let '(c, q) :=
                        fixVerticalAxis_at (_center s) (m_getRotate m) true in
                      set_rotation q (set_center c s)
                    else set_rotation (m_getRotate m) s)).
  { rewrite setByMatrix_stores. fold m. rewrite Hc.
    now rewrite set_center_same. }
  split; [exact Hc|]. split; [exact Hr|]. split; [exact Hset|].
  intro Hfix. rewrite Hset.
  destruct (_verticalAxisFixed s).
  - rewrite (Hfix eq_refl). split; [reflexivity | exact Hr].
  - split; [reflexivity | exact Hr].
Qed.

End ExactProperties.

Section KeyDown.
Context {SC : Scalar} {OSG : Osg} {BASE : ManipulatorBase}.

(** ** C10: every key-down moves the centre *)

(** In exact arithmetic the rotation that [getMatrix().getRotate()] reads
    back from the view matrix is the rotation of [_rotation], in every
    mode. *)
Lemma getMatrix_rotation (EX : OsgExact) (s : GUIOSGManipulator) :
  quat_length2 (_rotation s) = s1 ->
  m_rotate (m_getRotate (getMatrix s)) = m_rotate (_rotation s).
Proof.
  intro Hq. unfold getMatrix.
  destruct (mode_eqb (myCurrentMode s) MODE_TERRAIN); cbv zeta.
  - rewrite <- !m_mul_assoc, m_getRotate_translate_l,
      m_getRotate_translate_r.
    now apply m_getRotate_rotate.
  - rewrite m_getRotate_translate_r. now apply m_getRotate_rotate.
Qed.

(** C10.  After its [switch], [handleKeyDown] adds to [_center] the move
    vector rotated by [getMatrix().getRotate()], for every key.  For a key
    that is none of the four movement keys it returns [false] and leaves
    [myMove] as it is, and still replaces [_center] by [_center +
    getMatrix().getRotate() * myMove].  In exact arithmetic, and for a unit
    quaternion, [getMatrix().getRotate()] is the rotation of [_rotation],
    the current view rotation. *)
Theorem handleKeyDown_moves_center
    (ea : GUIEventAdapter) (s : GUIOSGManipulator) :
  (let s1 := set_move (myMove (snd (handleKeyDown ea s))) s in
   snd (handleKeyDown ea s)
   = set_center
       (v3_add (_center s)
          (quat_rotate (m_getRotate (getMatrix s1)) (myMove s1))) s1)
  /\ (movement_key (getKey ea) = false ->
        handleKeyDown ea s
        = (false,
           set_center
             (v3_add (_center s)
                (quat_rotate (m_getRotate (getMatrix s)) (myMove s))) s))
  /\ (OsgExact -> quat_length2 (_rotation s) = s1 ->
        m_rotate (m_getRotate (getMatrix s)) = m_rotate (_rotation s)).
Proof.
  split; [|split].
  - unfold handleKeyDown. destruct (getKey ea); destruct s; reflexivity.
  - unfold handleKeyDown. intro Hk.
    destruct (getKey ea); simpl in Hk; try discriminate; reflexivity.
  - intros EX Hq. now apply getMatrix_rotation.
Qed.

End KeyDown.

(* ================================================================= *)
(** * The real-number operations satisfy the laws of exact arithmetic *)

Module RealOsgFacts.
Import RealOsg.
Local Open Scope R_scope.

(** ** Comparisons *)

Lemma Rgtb_true (a b : R) : a > b -> Rgtb a b = true.
Proof. intro H. unfold Rgtb. destruct (Rgt_dec a b); [reflexivity | lra]. Qed.

Lemma Rgtb_false (a b : R) : a <= b -> Rgtb a b = false.
Proof. intro H. unfold Rgtb. destruct (Rgt_dec a b); [lra | reflexivity]. Qed.

Lemma Rltb_true (a b : R) : a < b -> Rltb a b = true.
Proof. intro H. unfold Rltb. destruct (Rlt_dec a b); [reflexivity | lra]. Qed.

Lemma Rltb_false (a b : R) : b <= a -> Rltb a b = false.
Proof. intro H. unfold Rltb. destruct (Rlt_dec a b); [lra | reflexivity]. Qed.

Lemma Rleb_false (a b : R) : b < a -> Rleb a b = false.
Proof. intro H. unfold Rleb. destruct (Rle_dec a b); [lra | reflexivity]. Qed.

Lemma Rleb_true (a b : R) : a <= b -> Rleb a b = true.
Proof. intro H. unfold Rleb. destruct (Rle_dec a b); [reflexivity | lra]. Qed.

Lemma Reqb_true (a b : R) : a = b -> Reqb a b = true.
Proof.
  intro H. unfold Reqb. destruct (Req_dec_T a b); [reflexivity | contradiction].
Qed.

Lemma Reqb_false (a b : R) : a <> b -> Reqb a b = false.
Proof.
  intro H. unfold Reqb. destruct (Req_dec_T a b); [contradiction | reflexivity].
Qed.

Lemma DBL_MIN_lt_1 : DBL_MIN < 1.
Proof.
  unfold DBL_MIN. rewrite <- Rinv_1.
  apply Rinv_lt_contravar.
  - rewrite Rmult_1_l. apply pow_lt. lra.
  - apply Rlt_pow_R1; [lra | lia].
Qed.

Lemma DBL_MIN_pos : 0 < DBL_MIN.
Proof. unfold DBL_MIN. apply Rinv_0_lt_compat, pow_lt. lra. Qed.

Lemma DBL_MIN_lt_quarter : DBL_MIN < / 4.
Proof.
  unfold DBL_MIN.
  assert (H : 4 < 2 ^ 1022).
  { replace 4 with (2 ^ 2) by (simpl; lra). apply Rlt_pow; [lra | lia]. }
  apply Rinv_lt_contravar; [|exact H].
  apply Rmult_lt_0_compat; lra.
Qed.

Lemma sqrt_value (a b : R) : 0 <= b -> b * b = a -> sqrt a = b.
Proof.
  intros Hb Hab. apply sqrt_lem_1; [rewrite <- Hab; nra | exact Hb | exact Hab].
Qed.

(** ** Matrices *)

Lemma Matrix_eq (a b : Matrixd) :
  r0 a = r0 b -> r1 a = r1 b -> r2 a = r2 b -> r3 a = r3 b -> a = b.
Proof. destruct a, b; simpl; intros; subst; reflexivity. Qed.

Lemma Row_eq (a b : Row) :
  c0 a = c0 b -> c1 a = c1 b -> c2 a = c2 b -> c3 a = c3 b -> a = b.
Proof. destruct a, b; simpl; intros; subst; reflexivity. Qed.

Ltac matrix_eq :=
  apply Matrix_eq; apply Row_eq; simpl.

Lemma Matrix_mul_assoc (a b c : Matrixd) :
  Matrix_mul a (Matrix_mul b c) = Matrix_mul (Matrix_mul a b) c.
Proof.
  destruct a as [[] [] [] []], b as [[] [] [] []], c as [[] [] [] []].
  matrix_eq; ring.
Qed.

Lemma Matrix_mul_1_l (a : Matrixd) : Matrix_mul Matrix_identity a = a.
Proof. destruct a as [[] [] [] []]. matrix_eq; ring. Qed.

Lemma Matrix_mul_1_r (a : Matrixd) : Matrix_mul a Matrix_identity = a.
Proof. destruct a as [[] [] [] []]. matrix_eq; ring. Qed.

Lemma Matrix_translate_add (a b : Vec3) :
  Matrix_mul (Matrix_translate a) (Matrix_translate b)
  = Matrix_translate (v3_add a b).
Proof. destruct a, b. matrix_eq; ring. Qed.

(** The rotation matrix of a unit quaternion. *)
Lemma Matrix_rotate_unit (q : Quat) :
  Quat_length2 q = 1 ->
  Matrix_rotate q =
  M4 (R4 (1 - (qy q * (2 * qy q) + qz q * (2 * qz q)))
         (qx q * (2 * qy q) + qw q * (2 * qz q))
         (qx q * (2 * qz q) - qw q * (2 * qy q)) 0)
     (R4 (qx q * (2 * qy q) - qw q * (2 * qz q))
         (1 - (qx q * (2 * qx q) + qz q * (2 * qz q)))
         (qy q * (2 * qz q) + qw q * (2 * qx q)) 0)
     (R4 (qx q * (2 * qz q) + qw q * (2 * qy q))
         (qy q * (2 * qz q) - qw q * (2 * qx q))
         (1 - (qx q * (2 * qx q) + qy q * (2 * qy q))) 0)
     (R4 0 0 0 1).
Proof.
  intro Hq. unfold Matrix_rotate. rewrite Hq.
  rewrite Rleb_false, Reqb_true; [reflexivity | reflexivity |].
  rewrite Rabs_R1. exact DBL_MIN_lt_1.
Qed.

Lemma Quat_inverse_unit (q : Quat) :
  Quat_length2 q = 1 ->
  Quat_inverse q = Q4 (- qx q) (- qy q) (- qz q) (qw q)
  /\ Quat_length2 (Quat_inverse q) = 1.
Proof.
  intro Hq. unfold Quat_inverse. rewrite Hq.
  assert (E : Q4 (- qx q * (1 / 1)) (- qy q * (1 / 1)) (- qz q * (1 / 1))
                 (qw q * (1 / 1))
              = Q4 (- qx q) (- qy q) (- qz q) (qw q)).
  { f_equal; field. }
  rewrite E. split; [reflexivity|].
  unfold Quat_length2 in *. simpl. rewrite <- Hq. ring.
Qed.

Lemma Matrix_rotate_inverse_r (q : Quat) :
  Quat_length2 q = 1 ->
  Matrix_mul (Matrix_rotate q) (Matrix_rotate (Quat_inverse q))
  = Matrix_identity.
Proof.
  intro Hq. destruct (Quat_inverse_unit q Hq) as [Einv Hinv].
  rewrite (Matrix_rotate_unit q Hq), (Matrix_rotate_unit _ Hinv), Einv.
  destruct q as [x y z w]. unfold Quat_length2 in Hq. simpl in *.
  matrix_eq; nsatz.
Qed.

Lemma Matrix_rotate_inverse_l (q : Quat) :
  Quat_length2 q = 1 ->
  Matrix_mul (Matrix_rotate (Quat_inverse q)) (Matrix_rotate q)
  = Matrix_identity.
Proof.
  intro Hq. destruct (Quat_inverse_unit q Hq) as [Einv Hinv].
  rewrite (Matrix_rotate_unit q Hq), (Matrix_rotate_unit _ Hinv), Einv.
  destruct q as [x y z w]. unfold Quat_length2 in Hq. simpl in *.
  matrix_eq; nsatz.
Qed.

(** [rotate(q)] normalises: the matrix of a scaled unit quaternion is that
    of the unit quaternion, unless the squared length is within [DBL_MIN] of
    zero. *)
Lemma Matrix_rotate_scaled (u : Quat) (k : R) :
  Quat_length2 u = 1 -> DBL_MIN < k * k ->
  Matrix_rotate (Q4 (k * qx u) (k * qy u) (k * qz u) (k * qw u))
  = Matrix_rotate u.
Proof.
  intros Hu Hk. rewrite (Matrix_rotate_unit u Hu).
  assert (Hpos := DBL_MIN_pos).
  assert (Hk0 : k <> 0) by (intro; subst k; lra).
  destruct u as [x y z w]. unfold Quat_length2 in Hu.
  unfold Matrix_rotate, Quat_length2. cbn [qx qy qz qw] in *.
  assert (HL : k * x * (k * x) + k * y * (k * y) + k * z * (k * z)
               + k * w * (k * w) = k * k) by nsatz.
  rewrite HL. rewrite Rleb_false by (rewrite Rabs_pos_eq; lra).
  assert (Hr : (if Reqb (k * k) 1 then 2 else 2 / (k * k)) = 2 / (k * k)).
  { unfold Reqb. destruct (Req_dec_T (k * k) 1) as [E|]; [|reflexivity].
    rewrite E. lra. }
  rewrite Hr. cbv zeta. matrix_eq; field; exact Hk0.
Qed.

Lemma Matrix_rotate_normalized (q : Quat) :
  DBL_MIN < Quat_length2 q -> DBL_MIN < / Quat_length2 q ->
  exists u,
    Quat_length2 u = 1
    /\ Matrix_rotate q = Matrix_rotate u
    /\ Matrix_rotate (Quat_inverse q) = Matrix_rotate (Quat_inverse u).
Proof.
  intros HL Hi. assert (Hpos := DBL_MIN_pos).
  set (L := Quat_length2 q) in *.
  set (k := sqrt L).
  assert (Hkk : k * k = L) by (apply sqrt_sqrt; lra).
  assert (Hk : 0 < k) by (apply sqrt_lt_R0; lra).
  assert (Hk0 : k <> 0) by lra.
  destruct q as [x y z w].
  exists (Q4 (x / k) (y / k) (z / k) (w / k)).
  assert (Hu : Quat_length2 (Q4 (x / k) (y / k) (z / k) (w / k)) = 1).
  { unfold Quat_length2. cbn [qx qy qz qw].
    replace (x / k * (x / k) + y / k * (y / k) + z / k * (z / k)
             + w / k * (w / k))
      with ((x * x + y * y + z * z + w * w) / (k * k)) by (field; exact Hk0).
    rewrite Hkk. change (x * x + y * y + z * z + w * w) with L.
    field. lra. }
  split; [exact Hu|]. split.
  - rewrite <- (Matrix_rotate_scaled _ k Hu) by (rewrite Hkk; exact HL).
    cbn [qx qy qz qw]. do 2 f_equal; field; exact Hk0.
  - destruct (Quat_inverse_unit _ Hu) as [Einv Hinv].
    rewrite <- (Matrix_rotate_scaled _ (/ k) Hinv).
    + rewrite Einv. cbn [qx qy qz qw].
      unfold Quat_inverse. fold L. rewrite <- Hkk. cbn [qx qy qz qw].
      do 2 f_equal; field; exact Hk0.
    + replace (/ k * / k) with (/ L); [exact Hi|].
      rewrite <- Hkk. field. exact Hk0.
Qed.

(** The matrix of the zero quaternion has no rotation part. *)
Lemma Matrix_rotate_zero :
  Matrix_rotate (Q4 0 0 0 0)
  = M4 (R4 0 0 0 0) (R4 0 0 0 0) (R4 0 0 0 0) (R4 0 0 0 1).
Proof.
  unfold Matrix_rotate, Quat_length2. cbn [qx qy qz qw].
  rewrite Rleb_true; [reflexivity|].
  replace (0 * 0 + 0 * 0 + 0 * 0 + 0 * 0) with 0 by ring.
  rewrite Rabs_R0. apply Rlt_le, DBL_MIN_pos.
Qed.

Lemma Matrix_rotate_identity : Matrix_rotate Quat_identity = Matrix_identity.
Proof.
  rewrite Matrix_rotate_unit by (unfold Quat_length2; simpl; ring).
  unfold Matrix_identity. simpl. matrix_eq; ring.
Qed.

Lemma Matrix_translate_zero : Matrix_translate (V3 0 0 0) = Matrix_identity.
Proof. reflexivity. Qed.

Lemma scaled_eq (n1 n2 d1 d2 : R) :
  n1 = n2 -> d1 = d2 -> n1 * (1 / d1) = n2 * (1 / d2).
Proof. intros -> ->. reflexivity. Qed.

Lemma Matrix_preMult_translate (v a : Vec3) :
  Matrix_preMult v (Matrix_translate a) = v3_add v a.
Proof.
  destruct v as [x y z], a as [ax ay az].
  unfold Matrix_preMult, v3_add. simpl. f_equal; field.
Qed.

Lemma Matrix_preMult_translate_mul (v a : Vec3) (b : Matrixd) :
  Matrix_preMult v (Matrix_mul (Matrix_translate a) b)
  = Matrix_preMult (v3_add v a) b.
Proof.
  destruct v as [x y z], a as [ax ay az], b as [[] [] [] []].
  unfold Matrix_preMult, v3_add. simpl.
  f_equal; apply scaled_eq; ring.
Qed.

(** A rotation matrix is affine and fixes the origin. *)
Lemma Matrix_rotate_affine (q : Quat) :
  exists a0 a1 a2 b0 b1 b2 d0 d1 d2,
    Matrix_rotate q
    = M4 (R4 a0 a1 a2 0) (R4 b0 b1 b2 0) (R4 d0 d1 d2 0) (R4 0 0 0 1).
Proof.
  unfold Matrix_rotate.
  destruct (Rleb (Rabs (Quat_length2 q)) DBL_MIN); repeat eexists.
Qed.

Lemma Matrix_preMult_rotate_mul (q : Quat) (b : Matrixd) :
  Matrix_preMult (V3 0 0 0) (Matrix_mul (Matrix_rotate q) b)
  = Matrix_preMult (V3 0 0 0) b.
Proof.
  destruct (Matrix_rotate_affine q)
    as (a0 & a1 & a2 & b0 & b1 & b2 & d0 & d1 & d2 & ->).
  destruct b as [[] [] [] []].
  unfold Matrix_preMult. simpl. f_equal; apply scaled_eq; ring.
Qed.

(** [getRotate] reads the first three rows only. *)
Lemma Matrix_getRotate_rows (a b c d d' : Row) :
  Matrix_getRotate (M4 a b c d) = Matrix_getRotate (M4 a b c d').
Proof. reflexivity. Qed.

Lemma Matrix_getRotate_translate_l (a : Vec3) (b : Matrixd) :
  Matrix_getRotate (Matrix_mul (Matrix_translate a) b) = Matrix_getRotate b.
Proof.
  destruct a as [ax ay az], b as [[] [] [] []].
  match goal with
  | |- Matrix_getRotate ?m = Matrix_getRotate (M4 ?a ?b ?c ?d) =>
      replace m with (M4 a b c (r3 m)); [apply Matrix_getRotate_rows|]
  end.
  matrix_eq; ring.
Qed.

Lemma Matrix_getRotate_translate_r (q : Quat) (c : Vec3) :
  Matrix_getRotate (Matrix_mul (Matrix_rotate q) (Matrix_translate c))
  = Matrix_getRotate (Matrix_rotate q).
Proof.
  destruct (Matrix_rotate_affine q)
    as (a0 & a1 & a2 & b0 & b1 & b2 & d0 & d1 & d2 & ->).
  destruct c as [x y z].
  match goal with
  | |- Matrix_getRotate ?m = Matrix_getRotate (M4 ?a ?b ?c ?d) =>
      replace m with (M4 a b c (r3 m)); [apply Matrix_getRotate_rows|]
  end.
  matrix_eq; ring.
Qed.

(** The case of [getRotate] that divides by the trace [4 * c * c] of the
    component [c]: the result is the quaternion times the sign of [c]. *)
Ltac getRotate_case c :=
  match goal with
  | |- context [sqrt (1 / 4 / ?T)] =>
      assert (HT : T = 4 * c * c) by lra;
      assert (Hc : c <> 0) by (intro; subst c; nra);
      destruct (Rlt_dec 0 c);
      [ exists 1; split; [left; reflexivity|];
        rewrite (sqrt_value (1 / 4 / T) (/ (4 * c)))
          by first [ apply Rlt_le, Rinv_0_lt_compat; lra
                   | rewrite HT; field; lra ]
      | exists (-1); split; [right; reflexivity|];
        rewrite (sqrt_value (1 / 4 / T) (/ (- 4 * c)))
          by first [ apply Rlt_le, Rinv_0_lt_compat; lra
                   | rewrite HT; field; lra ] ];
      cbn [qx qy qz qw]; rewrite ?HT; f_equal; field; lra
  end.

(** [getRotate] gives a unit quaternion's matrix back as the quaternion or
    as its negative, which is the same rotation. *)
Lemma Matrix_getRotate_sign (q : Quat) :
  Quat_length2 q = 1 ->
  exists sg : R,
    (sg = 1 \/ sg = -1)
    /\ Matrix_getRotate (Matrix_rotate q)
       = Q4 (sg * qx q) (sg * qy q) (sg * qz q) (sg * qw q).
Proof.
  intro Hq. rewrite (Matrix_rotate_unit q Hq).
  destruct q as [x y z w]. unfold Quat_length2 in Hq.
  cbn [qx qy qz qw] in *.
  unfold Matrix_getRotate, Rgtb. cbn [r0 r1 r2 r3 c0 c1 c2 c3].
  repeat match goal with
         | |- context [Rgt_dec ?a ?b] => destruct (Rgt_dec a b)
         end;
    first [ getRotate_case w | getRotate_case x | getRotate_case y
          | getRotate_case z ].
Qed.

Lemma Matrix_getRotate_rotate (q : Quat) :
  Quat_length2 q = 1 ->
  Matrix_rotate (Matrix_getRotate (Matrix_rotate q)) = Matrix_rotate q.
Proof.
  intro Hq.
  destruct (Matrix_getRotate_sign q Hq) as (sg & Hsg & ->).
  assert (Hsq : sg * sg = 1) by (destruct Hsg as [-> | ->]; ring).
  assert (Hq' : Quat_length2
                  (Q4 (sg * qx q) (sg * qy q) (sg * qz q) (sg * qw q)) = 1).
  { unfold Quat_length2 in *. cbn [qx qy qz qw].
    transitivity (sg * sg * (qx q * qx q + qy q * qy q + qz q * qz q
                             + qw q * qw q)); [ring|].
    rewrite Hsq, Hq. ring. }
  rewrite (Matrix_rotate_unit _ Hq'), (Matrix_rotate_unit q Hq).
  cbn [qx qy qz qw].
  destruct Hsg as [-> | ->]; matrix_eq; ring.
Qed.

(** The quaternion and the matrix of a rotation agree: for unit
    quaternions [v * rotate(q)] is [q * v], and the matrix of a product is
    the product of the matrices. *)
Lemma Matrix_preMult_rotate (q : Quat) (v : Vec3) :
  Quat_length2 q = 1 ->
  Matrix_preMult v (Matrix_rotate q) = Quat_rotate q v.
Proof.
  intro Hq. rewrite (Matrix_rotate_unit q Hq).
  destruct q as [x y z w], v as [a b c]. unfold Quat_length2 in Hq.
  unfold Matrix_preMult, Quat_rotate, cross, scale, v3_add.
  cbn [qx qy qz qw vx vy vz r0 r1 r2 r3 c0 c1 c2 c3 sadd RealScalar] in *.
  replace (0 * a + 0 * b + 0 * c + 1) with 1 by ring.
  replace (1 / 1) with 1 by field.
  f_equal; nsatz.
Qed.

Lemma Quat_mul_unit (p q : Quat) :
  Quat_length2 p = 1 -> Quat_length2 q = 1 ->
  Quat_length2 (Quat_mul p q) = 1.
Proof.
  destruct p as [x y z w], q as [a b c d]. unfold Quat_length2, Quat_mul.
  cbn [qx qy qz qw]. intros Hp Hq. nsatz.
Qed.

Lemma Matrix_rotate_mul (p q : Quat) :
  Quat_length2 p = 1 -> Quat_length2 q = 1 ->
  Matrix_mul (Matrix_rotate p) (Matrix_rotate q)
  = Matrix_rotate (Quat_mul p q).
Proof.
  intros Hp Hq.
  rewrite (Matrix_rotate_unit p Hp), (Matrix_rotate_unit q Hq),
    (Matrix_rotate_unit _ (Quat_mul_unit p q Hp Hq)).
  destruct p as [x y z w], q as [a b c d].
  unfold Quat_length2, Quat_mul in *. cbn [qx qy qz qw] in *.
  matrix_eq; nsatz.
Qed.

(** The operations over the real numbers are exact. *)
#[export] Instance RealExact : OsgExact.
Proof.
  constructor.
  - exact RTheory.
  - exact Matrix_mul_assoc.
  - exact Matrix_mul_1_l.
  - exact Matrix_mul_1_r.
  - exact Matrix_translate_zero.
  - exact Matrix_translate_add.
  - exact Matrix_rotate_identity.
  - exact Matrix_rotate_inverse_r.
  - exact Matrix_rotate_inverse_l.
  - exact Matrix_preMult_translate.
  - exact Matrix_preMult_translate_mul.
  - exact Matrix_preMult_rotate_mul.
  - exact Matrix_getRotate_translate_l.
  - exact Matrix_getRotate_translate_r.
  - exact Matrix_getRotate_rotate.
Qed.

End RealOsgFacts.

(* ================================================================= *)
(** * The real-number model satisfies the further laws *)

Module RealOsgRotationFacts.
Import RealOsg RealOsgFacts.
Local Open Scope R_scope.

Lemma Quat_rotate_zero (q : Quat) : Quat_rotate q (V3 0 0 0) = V3 0 0 0.
Proof.
  destruct q as [x y z w].
  unfold Quat_rotate, cross, scale, v3_add.
  cbn [qx qy qz qw vx vy vz sadd RealScalar]. f_equal; ring.
Qed.

Lemma Quat_rotate_neg (q : Quat) (v : Vec3) :
  Quat_rotate q (v3_neg v) = v3_neg (Quat_rotate q v).
Proof.
  destruct q as [x y z w], v as [a b c].
  unfold Quat_rotate, cross, scale, v3_add, v3_neg.
  cbn [qx qy qz qw vx vy vz sadd sneg RealScalar]. f_equal; ring.
Qed.

Lemma Matrix_preMult_rotate_then (v : Vec3) (q : Quat) (b : Matrixd) :
  Matrix_preMult v (Matrix_mul (Matrix_rotate q) b)
  = Matrix_preMult (Matrix_preMult v (Matrix_rotate q)) b.
Proof.
  destruct (Matrix_rotate_affine q)
    as (a0 & a1 & a2 & b0 & b1 & b2 & d0 & d1 & d2 & ->).
  destruct b as [[] [] [] []], v as [x y z].
  unfold Matrix_preMult. cbn [Matrix_mul Row_mul r0 r1 r2 r3 c0 c1 c2 c3 vx vy vz].
  replace (1 / (0 * x + 0 * y + 0 * z + 1)) with 1 by (field; lra).
  f_equal; apply scaled_eq; ring.
Qed.

Lemma Quat_rotate_getRotate (q : Quat) (v : Vec3) :
  Quat_length2 q = 1 ->
  Quat_rotate (Matrix_getRotate (Matrix_rotate q)) v = Quat_rotate q v.
Proof.
  intro Hq. destruct (Matrix_getRotate_sign q Hq) as (sg & Hsg & ->).
  destruct q as [x y z w], v as [a b c].
  unfold Quat_rotate, cross, scale, v3_add.
  cbn [qx qy qz qw vx vy vz sadd RealScalar].
  destruct Hsg as [-> | ->]; f_equal; ring.
Qed.

Lemma Matrix_translate_rotate (v : Vec3) (q : Quat) :
  Quat_length2 q = 1 ->
  Matrix_mul (Matrix_translate v) (Matrix_rotate q)
  = Matrix_mul (Matrix_rotate q) (Matrix_translate (Quat_rotate q v)).
Proof.
  intro Hq. rewrite (Matrix_rotate_unit q Hq).
  destruct q as [x y z w], v as [a b c]. unfold Quat_length2 in Hq.
  unfold Quat_rotate, cross, scale, v3_add.
  cbn [qx qy qz qw vx vy vz sadd RealScalar] in *.
  matrix_eq; nsatz.
Qed.

#[export] Instance RealExactRotation : OsgExactRotation.
Proof.
  constructor.
  - intro a. now apply Reqb_true.
  - intro a. apply Rgtb_false, Rle_refl.
  - reflexivity.
  - reflexivity.
  - exact Quat_rotate_zero.
  - exact Quat_rotate_neg.
  - exact Quat_mul_unit.
  - exact Matrix_rotate_mul.
  - intros q v Hq. now apply Matrix_preMult_rotate.
  - exact Matrix_preMult_rotate_then.
  - exact Quat_rotate_getRotate.
  - exact Matrix_translate_rotate.
Qed.

End RealOsgRotationFacts.

(* ================================================================= *)
(** * Runs of the manipulator over the real numbers *)

Module RealRuns.
Import RealOsg RealOsgFacts RealOsgRotationFacts.
Local Open Scope R_scope.

(** A vector of reals. *)
Local Abbreviation vec := (V3 (SC := RealScalar)).

(** ** Evaluation *)

Ltac vec_ops :=
  unfold v3_add, v3_sub, v3_neg, v3_dot, cross, scale, divide, length2;
  cbn [vx vy vz qx qy qz qw c0 c1 c2 c3 r0 r1 r2 r3
       scalar s0 s1 s2 sadd ssub smul sdiv sneg RealScalar].

Ltac decide_cmp :=
  repeat match goal with
    | |- context [Rltb ?a ?b] =>
        first [ rewrite (Rltb_true a b) by lra
              | rewrite (Rltb_false a b) by lra ]
    | |- context [Rgtb ?a ?b] =>
        first [ rewrite (Rgtb_true a b) by lra
              | rewrite (Rgtb_false a b) by lra ]
    | |- context [Reqb ?a ?b] =>
        first [ rewrite (Reqb_true a b) by lra
              | rewrite (Reqb_false a b) by lra ]
    end;
  cbn [orb andb negb]; cbv beta iota.

Ltac crunch := repeat progress (vec_ops; decide_cmp).

Ltac eval_sqrt b :=
  match goal with
  | |- context [sqrt ?a] => rewrite (sqrt_value a b) by lra
  end.

(** The class operations at the real instance, and the fields of the
    scenario states. *)
Ltac real_ops :=
  cbn [scalar s0 s1 s2 sadd ssub smul sdiv sneg sgtb seqb to_float RealScalar
       quat matrix quat_identity quat_angle_axis quat_mul quat_rotate
       quat_inverse quat_length2 m_identity m_translate m_rotate m_mul
       m_getRotate m_preMult fixVerticalAxis fixVerticalAxis_at toolkit_state
       RealOsgOps
       myCurrentMode myWalkEyeHeight myMoveSpeed myMove _center _rotation
       _distance _verticalAxisFixed _ga_t0 _ga_t1 toolkit start
       getKey getTime getXnormalized getYnormalized key_event pointer_event
       deref assign set_rotation set_center set_move set_mode vx vy vz].

Ltac vec_value t v :=
  replace t with v
    by (unfold Quat_rotate, Quat_mul, pitched, upside_down; cbv zeta;
        vec_ops; f_equal; lra).

Lemma Quat_mul_identity_r (q : Quat) : Quat_mul q (Q4 0 0 0 1) = q.
Proof. destruct q. unfold Quat_mul. cbn [qx qy qz qw]. f_equal; ring. Qed.

Lemma Quat_from_to_right : 
  Quat_from_to (V3 1 0 0) (V3 (24 / 25) 0 0) = Q4 0 0 0 1.
Proof.
  unfold Quat_from_to. cbv zeta.
  crunch. eval_sqrt (24 / 25). crunch. eval_sqrt 1. f_equal; lra.
Qed.

Lemma Quat_from_to_left :
  Quat_from_to (V3 (-1) 0 0) (V3 (- 24 / 25) 0 0) = Q4 0 0 0 1.
Proof.
  unfold Quat_from_to. cbv zeta.
  crunch. eval_sqrt (24 / 25). crunch. eval_sqrt 1. f_equal; lra.
Qed.

Lemma Quat_angle_axis_zero_x : Quat_angle_axis 0 (V3 1 0 0) = Q4 0 0 0 1.
Proof.
  unfold Quat_angle_axis. cbv zeta. vec_ops. eval_sqrt 1. crunch.
  replace (/ 2 * 0) with 0 by lra. rewrite cos_0, sin_0. f_equal; lra.
Qed.

Lemma Quat_angle_axis_zero_z : Quat_angle_axis (- 0) (V3 0 0 1) = Q4 0 0 0 1.
Proof.
  unfold Quat_angle_axis. cbv zeta. vec_ops. eval_sqrt 1. crunch.
  replace (/ 2 * - 0) with 0 by lra. rewrite cos_0, sin_0. f_equal; lra.
Qed.

Lemma Quat_angle_axis_pi_z : Quat_angle_axis PI (V3 0 0 1) = Q4 0 0 1 0.
Proof.
  unfold Quat_angle_axis. cbv zeta. vec_ops. eval_sqrt 1. crunch.
  replace (/ 2 * PI) with (PI / 2) by lra. rewrite cos_PI2, sin_PI2.
  f_equal; lra.
Qed.

Lemma pitched_up : Quat_rotate pitched (V3 0 1 0) = V3 0 (7 / 25) (24 / 25).
Proof. unfold Quat_rotate, pitched. cbv zeta. vec_ops. f_equal; lra. Qed.

Lemma pitched_right : Quat_rotate pitched (V3 1 0 0) = V3 1 0 0.
Proof. unfold Quat_rotate, pitched. cbv zeta. vec_ops. f_equal; lra. Qed.

Lemma pitched_forward :
  Quat_rotate pitched (V3 0 0 (-1)) = V3 0 (24 / 25) (- 7 / 25).
Proof. unfold Quat_rotate, pitched. cbv zeta. vec_ops. f_equal; lra. Qed.

Lemma upside_down_up :
  Quat_rotate upside_down (V3 0 1 0) = V3 0 (- 7 / 25) (- 24 / 25).
Proof. unfold Quat_rotate, upside_down. cbv zeta. vec_ops. f_equal; lra. Qed.

Lemma upside_down_right : Quat_rotate upside_down (V3 1 0 0) = V3 (-1) 0 0.
Proof. unfold Quat_rotate, upside_down. cbv zeta. vec_ops. f_equal; lra. Qed.

Lemma upside_down_forward :
  Quat_rotate upside_down (V3 0 0 (-1)) = V3 0 (24 / 25) (- 7 / 25).
Proof. unfold Quat_rotate, upside_down. cbv zeta. vec_ops. f_equal; lra. Qed.

(** Re-levelling leaves the level camera as it is. *)
Lemma Fix_vertical_axis_pitched (disallowFlipOver : bool) :
  Fix_vertical_axis pitched (V3 0 0 1) disallowFlipOver = pitched.
Proof.
  unfold Fix_vertical_axis.
  rewrite pitched_up, pitched_right, pitched_forward. cbv zeta.
  vec_value (cross (V3 0 (24 / 25) (- 7 / 25)) (V3 0 0 1)) (V3 (24 / 25) 0 0).
  vec_value (cross (V3 0 (7 / 25) (24 / 25)) (V3 0 0 1)) (V3 (7 / 25) 0 0).
  crunch. rewrite Quat_from_to_right, Quat_mul_identity_r.
  destruct disallowFlipOver; [|reflexivity]. crunch. reflexivity.
Qed.

(** Re-levelling with [disallowFlipOver] turns the upside-down camera over:
    the result is minus [pitched], the rotation of [pitched]. *)
Lemma Fix_vertical_axis_upside_down :
  Fix_vertical_axis upside_down (V3 0 0 1) true
  = Q4 (- 3 / 5) 0 0 (- 4 / 5).
Proof.
  unfold Fix_vertical_axis.
  rewrite upside_down_up, upside_down_right, upside_down_forward. cbv zeta.
  vec_value (cross (V3 0 (24 / 25) (- 7 / 25)) (V3 0 0 1)) (V3 (24 / 25) 0 0).
  vec_value (cross (V3 0 (- 7 / 25) (- 24 / 25)) (V3 0 0 1))
            (V3 (- 7 / 25) 0 0).
  crunch.
  vec_value (V3 (- (24 / 25)) (- 0) (- 0)) (V3 (- 24 / 25) 0 0).
  rewrite Quat_from_to_left, Quat_mul_identity_r, Quat_angle_axis_pi_z.
  crunch. unfold Quat_mul, upside_down. cbn [qx qy qz qw]. f_equal; lra.
Qed.

Lemma pitched_unit : Quat_length2 pitched = 1.
Proof. unfold Quat_length2, pitched. cbn [qx qy qz qw]. lra. Qed.

Lemma upside_down_unit : Quat_length2 upside_down = 1.
Proof. unfold Quat_length2, upside_down. cbn [qx qy qz qw]. lra. Qed.

(** [getRotate] reads the quaternions of the scenarios back, sign
    included. *)
Lemma Matrix_getRotate_identity :
  Matrix_getRotate Matrix_identity = Q4 0 0 0 1.
Proof.
  unfold Matrix_getRotate, Matrix_identity. cbv zeta. crunch.
  eval_sqrt (1 / 4). f_equal; lra.
Qed.

Lemma Matrix_getRotate_pitched :
  Matrix_getRotate (Matrix_rotate pitched) = pitched.
Proof.
  rewrite (Matrix_rotate_unit pitched pitched_unit).
  unfold Matrix_getRotate, pitched. cbv zeta. crunch.
  eval_sqrt (5 / 16). f_equal; lra.
Qed.

Lemma Matrix_getRotate_upside_down :
  Matrix_getRotate (Matrix_rotate upside_down) = upside_down.
Proof.
  rewrite (Matrix_rotate_unit upside_down upside_down_unit).
  unfold Matrix_getRotate, upside_down. cbv zeta. crunch.
  eval_sqrt (5 / 16). f_equal; lra.
Qed.

(** ** C1: an accepted candidate *)

Lemma rotateYawPitch_enter_pitched :
  rotateYawPitch_enter RefRotation 0 Z_AXIS
    (start MODE_EGO true pitched 10 (V3 0 0 0))
  = {| yp_ref := RefRotation;
       yp_state := start MODE_EGO true pitched 10 (V3 0 0 0);
       yp_verticalAxisFixed := true;
       yp_rotation := pitched;
       yp_rotateYaw := Q4 0 0 0 1;
       yp_cameraRight := V3 1 0 0;
       yp_eye := eye_of (start MODE_EGO true pitched 10 (V3 0 0 0)) |}.
Proof.
  unfold rotateYawPitch_enter, v3_neqb, Z_AXIS. real_ops. crunch.
  real_ops. rewrite Fix_vertical_axis_pitched. real_ops.
  rewrite Quat_angle_axis_zero_z, pitched_right. reflexivity.
Qed.

Lemma pitch_loop_pitched :
  pitch_loop 20 pitched (Q4 0 0 0 1) (V3 1 0 0) Z_AXIS true 0 0
  = Some (Accepted pitched, 0, 0%Z).
Proof.
  rewrite pitch_loop_step.
  assert (Hc : candidate pitched (Q4 0 0 0 1) (V3 1 0 0) Z_AXIS true 0
               = pitched).
  { unfold candidate, Z_AXIS. real_ops.
    now rewrite Quat_angle_axis_zero_x, !Quat_mul_identity_r,
      Fix_vertical_axis_pitched. }
  rewrite Hc.
  assert (Hok : hemisphere_ok pitched Z_AXIS = true).
  { unfold hemisphere_ok, Z_AXIS. real_ops. rewrite pitched_up.
    apply Rgtb_true. vec_ops. lra. }
  now rewrite Hok.
Qed.

(** The state that [setByMatrix] installs for the accepted candidate has
    the candidate as its rotation. *)
Lemma setByMatrix_pitched_rotation (eye : Vec3) (s : GUIOSGManipulator) :
  _rotation (setByMatrix (m_mul (m_rotate pitched) (m_translate eye)) s)
  = pitched.
Proof.
  rewrite setByMatrix_stores. real_ops.
  rewrite Matrix_getRotate_translate_r, Matrix_getRotate_pitched.
  unfold Fix_vertical_axis_at. rewrite Fix_vertical_axis_pitched.
  now destruct (_verticalAxisFixed s).
Qed.


Lemma Quat_angle_axis_zero_down :
  Quat_angle_axis (- 0) (V3 0 0 (-1)) = Q4 0 0 0 1.
Proof.
  unfold Quat_angle_axis. cbv zeta. vec_ops. eval_sqrt 1. crunch.
  replace (/ 2 * - 0) with 0 by lra. rewrite cos_0, sin_0. f_equal; lra.
Qed.

Lemma Quat_angle_axis_zero_left :
  Quat_angle_axis 0 (V3 (-1) 0 0) = Q4 0 0 0 1.
Proof.
  unfold Quat_angle_axis. cbv zeta. vec_ops. eval_sqrt 1. crunch.
  replace (/ 2 * 0) with 0 by lra. rewrite cos_0, sin_0. f_equal; lra.
Qed.

(** Re-levelling against the axis that points down turns the level camera
    over: seen from that axis it is upside down. *)
Lemma Fix_vertical_axis_pitched_down :
  Fix_vertical_axis pitched (V3 0 0 (-1)) true = upside_down.
Proof.
  unfold Fix_vertical_axis.
  rewrite pitched_up, pitched_right, pitched_forward. cbv zeta.
  vec_value (cross (V3 0 (24 / 25) (- 7 / 25)) (V3 0 0 (-1)))
            (V3 (- 24 / 25) 0 0).
  vec_value (cross (V3 0 (7 / 25) (24 / 25)) (V3 0 0 (-1)))
            (V3 (- 7 / 25) 0 0).
  crunch.
  vec_value (V3 (- (- 24 / 25)) (- 0) (- 0)) (V3 (24 / 25) 0 0).
  rewrite Quat_from_to_right, Quat_mul_identity_r, Quat_angle_axis_pi_z.
  crunch. unfold Quat_mul, pitched, upside_down. cbn [qx qy qz qw].
  f_equal; lra.
Qed.

(** The camera that is upright for the axis that points down is left as it
    is by the re-levelling against that axis. *)
Lemma Fix_vertical_axis_upside_down_down (disallowFlipOver : bool) :
  Fix_vertical_axis upside_down (V3 0 0 (-1)) disallowFlipOver = upside_down.
Proof.
  unfold Fix_vertical_axis.
  rewrite upside_down_up, upside_down_right, upside_down_forward. cbv zeta.
  vec_value (cross (V3 0 (24 / 25) (- 7 / 25)) (V3 0 0 (-1)))
            (V3 (- 24 / 25) 0 0).
  vec_value (cross (V3 0 (- 7 / 25) (- 24 / 25)) (V3 0 0 (-1)))
            (V3 (7 / 25) 0 0).
  crunch. rewrite Quat_from_to_left, Quat_mul_identity_r.
  destruct disallowFlipOver; [|reflexivity]. crunch. reflexivity.
Qed.

Lemma unpitched_up :
  Quat_rotate (Q4 (- 3 / 5) 0 0 (- 4 / 5)) (V3 0 1 0)
  = V3 0 (7 / 25) (24 / 25).
Proof. unfold Quat_rotate. cbv zeta. vec_ops. f_equal; lra. Qed.

Lemma rotateYawPitch_enter_pitched_down :
  rotateYawPitch_enter RefRotation 0 (V3 0 0 (-1))
    (start MODE_EGO true pitched 10 (V3 0 0 0))
  = {| yp_ref := RefRotation;
       yp_state := start MODE_EGO true upside_down 10 (V3 0 0 0);
       yp_verticalAxisFixed := true;
       yp_rotation := upside_down;
       yp_rotateYaw := Q4 0 0 0 1;
       yp_cameraRight := V3 (-1) 0 0;
       yp_eye := eye_of (start MODE_EGO true upside_down 10 (V3 0 0 0)) |}.
Proof.
  unfold rotateYawPitch_enter, v3_neqb. real_ops. crunch.
  real_ops. rewrite Fix_vertical_axis_pitched_down. real_ops.
  rewrite Quat_angle_axis_zero_down, upside_down_right. reflexivity.
Qed.

Lemma pitch_loop_upside_down :
  pitch_loop 20 upside_down (Q4 0 0 0 1) (V3 (-1) 0 0) (V3 0 0 (-1)) true 0 0
  = Some (Accepted upside_down, 0, 0%Z).
Proof.
  rewrite pitch_loop_step.
  assert (Hc : candidate upside_down (Q4 0 0 0 1) (V3 (-1) 0 0)
                 (V3 0 0 (-1)) true 0 = upside_down).
  { unfold candidate. real_ops.
    now rewrite Quat_angle_axis_zero_left, !Quat_mul_identity_r,
      Fix_vertical_axis_upside_down_down. }
  rewrite Hc.
  assert (Hok : hemisphere_ok upside_down (V3 0 0 (-1)) = true).
  { unfold hemisphere_ok. real_ops. rewrite upside_down_up.
    apply Rgtb_true. vec_ops. lra. }
  now rewrite Hok.
Qed.

(** The state that [setByMatrix] installs for the camera that is upright
    for the axis that points down, when the vertical axis of the
    manipulator is fixed: re-levelled against the Z axis, it is turned
    over. *)
Lemma setByMatrix_upside_down_rotation (eye : Vec3) (s : GUIOSGManipulator) :
  _verticalAxisFixed s = true ->
  _rotation (setByMatrix (m_mul (m_rotate upside_down) (m_translate eye)) s)
  = Q4 (- 3 / 5) 0 0 (- 4 / 5).
Proof.
  intro Hv. rewrite setByMatrix_rotation, Hv. real_ops.
  rewrite Matrix_getRotate_translate_r, Matrix_getRotate_upside_down.
  unfold Fix_vertical_axis_at. cbn [snd].
  apply Fix_vertical_axis_upside_down.
Qed.


(** ** C2: twenty rejections *)

Lemma hemisphere_zero_axis (q : Quat) :
  hemisphere_ok q (V3 0 0 0) = false.
Proof.
  unfold hemisphere_ok. real_ops.
  match goal with
  | |- context [Quat_rotate q ?v] => destruct (Quat_rotate q v) as [x y z]
  end.
  apply Rgtb_false. vec_ops. lra.
Qed.

(** C2, a run: with the zero up axis ("vertical axis not fixed") no
    candidate passes the test, whatever the pitch.  For the yaw 1/10 and the
    pitch 1/5 the loop is left at [i = 20], the pitch halved 20 times, and
    the yaw alone is installed. *)
Lemma rotateYawPitch_retry_bound_run :
  let s := start MODE_EGO false pitched 10 (V3 0 0 0) in
  let f := rotateYawPitch_enter RefRotation (1 / 10) (V3 0 0 0) s in
  pitch_loop 20 (yp_rotation f) (yp_rotateYaw f) (yp_cameraRight f)
    (V3 0 0 0) (yp_verticalAxisFixed f) (1 / 5) 0
  = Some (YawOnly, halved 20 (1 / 5), 20%Z)
  /\ rotateYawPitch 20 RefRotation (1 / 10) (1 / 5) (V3 0 0 0) s
     = Some (setByMatrix
               (m_mul (m_mul (m_rotate (yp_rotation f))
                             (m_rotate (yp_rotateYaw f)))
                      (m_translate (yp_eye f)))
               (yp_state f)).
Proof.
  intros s f.
  apply (proj2 (rotateYawPitch_retry_bound (SC := RealScalar)
                  RefRotation (1 / 10) (1 / 5) (vec 0 0 0) s)).
  - intros k _. apply hemisphere_zero_axis.
  - apply le_n.
Defined.

(** ** C3: the scenario of the specification *)

(** C3, the scenario: terrain mode, distance 10, centre at the origin,
    identity rotation. *)
Lemma getMatrix_terrain_run :
  getMatrix (start MODE_TERRAIN true Quat_identity 10 (V3 0 0 0))
  = m_translate (V3 0 0 10)
  /\ m_translate (V3 0 0 10)
     = M4 (R4 1 0 0 0) (R4 0 1 0 0) (R4 0 0 1 0) (R4 0 0 10 1).
Proof.
  split; [|reflexivity].
  exact (proj2 (getMatrix_terrain
                  (start MODE_TERRAIN true Quat_identity 10 (V3 0 0 0))
                  eq_refl)
           RealExact eq_refl eq_refl).
Defined.

(** ** C4: inverse view matrices *)

(** The quaternion of the level camera, twice as long: its squared length
    is 4, that of its inverse 1/4. *)
Lemma pitched_doubled_normalized :
  exists u,
    Quat_length2 u = 1
    /\ Matrix_rotate (Q4 (6 / 5) 0 0 (8 / 5)) = Matrix_rotate u
    /\ Matrix_rotate (Quat_inverse (Q4 (6 / 5) 0 0 (8 / 5)))
       = Matrix_rotate (Quat_inverse u).
Proof.
  assert (HL : Quat_length2 (Q4 (6 / 5) 0 0 (8 / 5)) = 4)
    by (unfold Quat_length2; cbn [qx qy qz qw]; lra).
  apply Matrix_rotate_normalized; rewrite HL.
  - assert (H := DBL_MIN_lt_1). lra.
  - exact DBL_MIN_lt_quarter.
Qed.

(** C4 as amended, two runs: a camera in ego mode and in terrain mode whose
    quaternion is not of unit length. *)
Lemma getInverseMatrix_inverts_run :
  let doubled := Q4 (6 / 5) 0 0 (8 / 5) in
  let ego := start MODE_EGO true doubled 10 (V3 0 0 0) in
  let terrain := start MODE_TERRAIN true doubled 10 (V3 0 0 0) in
  Quat_length2 doubled = 4
  /\ (m_mul (getMatrix ego) (getInverseMatrix ego) = m_identity
      /\ m_mul (getInverseMatrix ego) (getMatrix ego) = m_identity)
  /\ (m_mul (getMatrix terrain) (getInverseMatrix terrain) = m_identity
      /\ m_mul (getInverseMatrix terrain) (getMatrix terrain) = m_identity).
Proof.
  intros doubled ego terrain.
  destruct pitched_doubled_normalized as (u & Hu & Hq & Hinv).
  split; [unfold Quat_length2, doubled; cbn [qx qy qz qw]; lra|]. split.
  - destruct (getInverseMatrix_inverts ego u Hu Hq Hinv) as (H1 & H2 & _).
    split; assumption.
  - destruct (getInverseMatrix_inverts terrain u Hu Hq Hinv) as (H1 & H2 & _).
    split; assumption.
Defined.

(** C4 as stated fails: with the zero quaternion as [_rotation] the matrix
    of [getMatrix] has no rotation part, its first row is zero, and so is
    the first row of its product with any matrix: [getInverseMatrix] is not
    its inverse, in either mode. *)
Lemma getInverseMatrix_zero_quaternion :
  let ego := start MODE_EGO true (Q4 0 0 0 0) 10 (V3 0 0 0) in
  let terrain := start MODE_TERRAIN true (Q4 0 0 0 0) 10 (V3 0 0 0) in
  quat_length2 (_rotation ego) = 0
  /\ r0 (m_mul (getMatrix ego) (getInverseMatrix ego)) = R4 0 0 0 0
  /\ m_mul (getMatrix ego) (getInverseMatrix ego) <> m_identity
  /\ r0 (m_mul (getMatrix terrain) (getInverseMatrix terrain)) = R4 0 0 0 0
  /\ m_mul (getMatrix terrain) (getInverseMatrix terrain) <> m_identity.
Proof.
  intros ego terrain.
  assert (Hzero : forall b, Row_mul (R4 0 0 0 0) b = R4 0 0 0 0).
  { intros [[] [] [] []]. unfold Row_mul. cbn [c0 c1 c2 c3 r0 r1 r2 r3].
    f_equal; ring. }
  assert (Hego : r0 (m_mul (getMatrix ego) (getInverseMatrix ego))
                 = R4 0 0 0 0).
  { unfold getMatrix, ego. real_ops. cbn [mode_eqb]. cbv zeta.
    rewrite Matrix_rotate_zero.
    unfold Matrix_mul at 1 2. cbn [r0]. now rewrite !Hzero. }
  assert (Hterrain : r0 (m_mul (getMatrix terrain) (getInverseMatrix terrain))
                     = R4 0 0 0 0).
  { unfold getMatrix, terrain. real_ops. cbn [mode_eqb].
    rewrite Matrix_rotate_zero.
    unfold Matrix_mul at 1 2 3. cbn [r0].
    replace (Row_mul (r0 (Matrix_translate (vec 0 0 10)))
               (M4 (R4 0 0 0 0) (R4 0 0 0 0) (R4 0 0 0 0) (R4 0 0 0 1)))
      with (R4 0 0 0 0)
      by (unfold Row_mul, Matrix_translate;
          cbn [c0 c1 c2 c3 r0 r1 r2 r3 vx vy vz]; f_equal; ring).
    now rewrite !Hzero. }
  split.
  - unfold ego. real_ops. unfold Quat_length2. cbn [qx qy qz qw]. ring.
  - split; [exact Hego|]. split; [|split; [exact Hterrain|]].
    + intro H. rewrite H in Hego. unfold m_identity in Hego. real_ops.
      unfold Matrix_identity in Hego. cbn [r0] in Hego.
      inversion Hego; lra.
    + intro H. rewrite H in Hterrain. unfold m_identity in Hterrain. real_ops.
      unfold Matrix_identity in Hterrain. cbn [r0] in Hterrain.
      inversion Hterrain; lra.
Defined.

(** ** C5: decomposing the view matrix *)

(** C5 as amended, a run: the level camera in terrain mode with the
    vertical axis fixed.  The re-levelling leaves the decomposition as it
    is, and centre and rotation are restored. *)
Lemma setByMatrix_getMatrix_terrain_run :
  let s := start MODE_TERRAIN true pitched 10 (V3 0 0 0) in
  _center (setByMatrix (getMatrix s) s) = _center s
  /\ m_rotate (_rotation (setByMatrix (getMatrix s) s))
     = m_rotate (_rotation s).
Proof.
  intro s.
  apply (setByMatrix_getMatrix_terrain (SC := RealScalar) s eq_refl
           pitched_unit).
  intros _.
  rewrite (getMatrix_terrain_rotation s eq_refl).
  unfold s. real_ops. rewrite Matrix_getRotate_pitched.
  unfold Fix_vertical_axis_at. now rewrite Fix_vertical_axis_pitched.
Defined.

(** C5 as stated fails: in terrain mode with the vertical axis fixed, the
    camera that is rolled upside down does not get its rotation back.
    [setByMatrix] re-levels what it decomposed, and stores minus [pitched]:
    the up vector [(0, -7/25, -24/25)] has become [(0, 7/25, 24/25)], and
    the rotation matrices differ. *)
Lemma setByMatrix_getMatrix_relevels :
  let s := start MODE_TERRAIN true upside_down 10 (V3 0 0 0) in
  let s' := setByMatrix (getMatrix s) s in
  _rotation s = upside_down
  /\ _rotation s' = Q4 (- 3 / 5) 0 0 (- 4 / 5)
  /\ quat_rotate (_rotation s) (V3 0 1 0) = V3 0 (- 7 / 25) (- 24 / 25)
  /\ quat_rotate (_rotation s') (V3 0 1 0) = V3 0 (7 / 25) (24 / 25)
  /\ m_rotate (_rotation s') <> m_rotate (_rotation s).
Proof.
  intros s s'.
  assert (Hrot : _rotation s' = Q4 (- 3 / 5) 0 0 (- 4 / 5)).
  { unfold s'. rewrite setByMatrix_stores.
    rewrite (getMatrix_terrain_rotation s eq_refl).
    unfold s. real_ops. rewrite Matrix_getRotate_upside_down.
    unfold Fix_vertical_axis_at. rewrite Fix_vertical_axis_upside_down.
    reflexivity. }
  split; [reflexivity|]. split; [exact Hrot|]. split; [|split].
  - exact upside_down_up.
  - rewrite Hrot. real_ops. unfold Quat_rotate. cbv zeta. vec_ops.
    f_equal; lra.
  - rewrite Hrot. unfold s. real_ops. intro H.
    apply (f_equal (fun m => c0 (r0 m))) in H.
    rewrite (Matrix_rotate_unit upside_down upside_down_unit) in H.
    rewrite Matrix_rotate_unit in H
      by (unfold Quat_length2; cbn [qx qy qz qw]; lra).
    unfold upside_down in H. cbn [qx qy qz qw c0 r0] in H. lra.
Defined.

(** ** C6: drags *)

(** C6, a run: a drag with [(dt, dx, dy) = (1, 2, 3)]; the log shows which
    handler of the base class was called, and with what. *)
Lemma drag_handlers_dispatch_run :
  let terrain := start MODE_TERRAIN true pitched 10 (V3 0 0 0) in
  let ego := start MODE_EGO true pitched 10 (V3 0 0 0) in
  (performMovementLeftMouseButton 1 2 3 terrain
   = (true, logged (TerrainMiddle 1 2 3) terrain)
   /\ performMovementMiddleMouseButton 1 2 3 terrain
      = (true, logged (TerrainLeft 1 2 3) terrain)
   /\ performMovementRightMouseButton 1 2 3 terrain
      = (true, logged (TerrainRight 1 2 (- 3)) terrain))
  /\ (performMovementLeftMouseButton 1 2 3 ego = (false, ego)
      /\ performMovementMiddleMouseButton 1 2 3 ego = (false, ego)
      /\ performMovementRightMouseButton 1 2 3 ego = (false, ego)).
Proof.
  intros terrain ego. split.
  - exact (proj1 (drag_handlers_dispatch (SC := RealScalar) 1 2 3 terrain)
             eq_refl).
  - apply (proj2 (drag_handlers_dispatch (SC := RealScalar) 1 2 3 ego)).
    discriminate.
Defined.

(** ** C7: pointer moves *)

(** C7 as amended, a run: the first pointer event of an ego-mode
    manipulator is recorded and not handled; the camera is untouched. *)
Lemma handleMouseMove_not_handled_run :
  let s := start MODE_EGO true pitched 10 (V3 0 0 0) in
  let first := pointer_event 0 (1 / 2) (1 / 4) in
  handleMouseMove 20 first s = Some (false, addMouseEvent first s)
  /\ camera_of (addMouseEvent first s) = camera_of s.
Proof.
  intros s first.
  destruct (proj2 (handleMouseMove_not_handled (SC := RealScalar)
                     20 first s))
    as (Hcam & Hnone & _); [discriminate|].
  split; [exact (Hnone eq_refl) | exact Hcam].
Defined.

(** C7 as stated fails: two consecutive pointer events with the same
    normalized coordinates [(1/2, 1/4)], one time unit apart.  The first
    one, not handled, is stored as the newest sample.  The second one is
    handled: its deltas are [1/2 * 1] and [1/4 * 1], not zero. *)
Lemma handleMouseMove_identical_samples_handled :
  let s := start MODE_EGO true pitched 10 (V3 0 0 0) in
  let first := pointer_event 0 (1 / 2) (1 / 4) in
  let second := pointer_event 1 (1 / 2) (1 / 4) in
  getXnormalized first = getXnormalized second
  /\ getYnormalized first = getYnormalized second
  /\ ssub (getTime second) (getTime first) = 1
  /\ handleMouseMove 20 first s = Some (false, addMouseEvent first s)
  /\ _ga_t0 s = None
  /\ _ga_t0 (addMouseEvent first s) = Some first
  /\ (exists s',
        handleMouseMove 20 second (addMouseEvent first s) = Some (true, s'))
  /\ handleMouseMove 20 second (addMouseEvent first s)
     <> Some (false, addMouseEvent first s).
Proof.
  intros s first second.
  assert (Hsecond : exists s',
            handleMouseMove 20 second (addMouseEvent first s)
            = Some (true, s')).
  { destruct (handleMouseMove_handled (SC := RealScalar) 20 second first
                (addMouseEvent first s)) as (s' & Hs' & _).
    - discriminate.
    - reflexivity.
    - unfold second, first. real_ops.
      rewrite (Reqb_false (1 / 2 * (1 - 0)) 0) by lra. reflexivity.
    - apply le_n.
    - exists s'. exact Hs'. }
  split; [reflexivity|]. split; [reflexivity|].
  split; [unfold second, first; real_ops; lra|].
  split; [reflexivity|]. split; [reflexivity|]. split; [reflexivity|].
  split; [exact Hsecond|].
  destruct Hsecond as (s' & Hs'). rewrite Hs'. discriminate.
Defined.

(** ** C8 to C10: keys *)

(** C8, a run: with the move vector [(2, 0, 5)], releasing Left clears all
    three components; and key-down Up, key-up Up leaves [(0, 0, 0)]. *)
Lemma handleKeyUp_clears_move_run :
  let s := start MODE_EGO true pitched 10 (V3 2 0 5) in
  handleKeyUp (key_event KEY_Left) s = (true, set_move (V3 0 0 0) s)
  /\ myMove (snd (handleKeyUp (key_event KEY_Up)
                    (snd (handleKeyDown (key_event KEY_Up) s))))
     = V3 0 0 0.
Proof.
  intro s.
  destruct (handleKeyUp_clears_move (SC := RealScalar)) as [Hup Hdownup].
  split.
  - exact (proj1 (Hup (key_event KEY_Left) s eq_refl)).
  - exact (proj2 (Hdownup (key_event KEY_Up) (key_event KEY_Up) s
                    eq_refl eq_refl)).
Defined.

(** C9, a run: toggles from ego mode. *)
Lemma toggle_key_transitions_run :
  let s := start MODE_EGO true pitched 10 (V3 0 0 0) in
  let F := key_event KEY_F in
  myCurrentMode (snd (handleKeyUp F s)) = MODE_TERRAIN
  /\ myCurrentMode (snd (handleKeyUp F (snd (handleKeyUp F s)))) = MODE_EGO
  /\ myCurrentMode
       (handleKeys [KEYDOWN F; KEYUP F; KEYDOWN (key_event KEY_Up);
                    KEYUP (key_event KEY_Up); KEYDOWN F; KEYUP F; KEYUP F] s)
     <> MODE_WALK.
Proof.
  intros s F.
  destruct (toggle_key_transitions (SC := RealScalar)) as (_ & Hnever & Htwo).
  destruct (Htwo F F s eq_refl eq_refl eq_refl) as [H1 H2].
  split; [exact H1|]. split; [exact H2|].
  apply Hnever. discriminate.
Defined.

(** C10, a run: in ego mode with the identity rotation and the move vector
    [(0, 0, -1)] of a held Up key, a key-down of the toggle key, which is no
    movement key, returns [false] and moves the centre from the origin to
    [(0, 0, -1)]. *)
Lemma handleKeyDown_moves_center_run :
  let s := start MODE_EGO true Quat_identity 10 (V3 0 0 (-1)) in
  handleKeyDown (key_event KEY_F) s = (false, set_center (V3 0 0 (-1)) s)
  /\ _center s = V3 0 0 0.
Proof.
  intro s. split; [|reflexivity].
  rewrite (proj1 (proj2 (handleKeyDown_moves_center (SC := RealScalar)
                           (key_event KEY_F) s)) eq_refl).
  do 2 f_equal.
  unfold getMatrix, s. real_ops. cbn [mode_eqb].
  rewrite Matrix_getRotate_translate_r, Matrix_rotate_identity,
    Matrix_getRotate_identity.
  unfold Quat_rotate. cbv zeta. vec_ops. f_equal; lra.
Defined.

End RealRuns.

(* ================================================================= *)
(** * Further properties, for any arithmetic *)

Section MoreProperties.
Context {SC : Scalar} {OSG : Osg} {BASE : ManipulatorBase}.

(** ** Key events *)

Lemma handleKeyDown_beyond (ea : GUIEventAdapter) (s : GUIOSGManipulator) :
  beyond_keys (snd (handleKeyDown ea s)) = beyond_keys s.
Proof. unfold handleKeyDown. destruct (getKey ea); reflexivity. Qed.

Lemma handleKeyUp_beyond (ea : GUIEventAdapter) (s : GUIOSGManipulator) :
  beyond_keys (snd (handleKeyUp ea s)) = beyond_keys s
  /\ _center (snd (handleKeyUp ea s)) = _center s.
Proof.
  unfold handleKeyUp.
  destruct (getKey ea); try (split; reflexivity).
  destruct (myCurrentMode s); split; reflexivity.
Qed.

(** X1.  No sequence of key presses and releases changes the rotation, the
    distance, the move speed, the eye height, the vertical-axis flag, the
    stored pointer samples or the toolkit's state: key events act on the
    mode, the move vector and the centre only.  A key release never moves
    the centre. *)
Theorem key_events_frame (es : list KeyEvent) (s : GUIOSGManipulator) :
  beyond_keys (handleKeys es s) = beyond_keys s
  /\ (forall ea, _center (snd (handleKeyUp ea s)) = _center s).
Proof.
  split; [|intro ea; apply handleKeyUp_beyond].
  revert s. unfold handleKeys.
  induction es as [|e es IH]; intro s; simpl; [reflexivity|].
  rewrite IH. destruct e as [ea | ea]; simpl.
  - apply handleKeyDown_beyond.
  - apply handleKeyUp_beyond.
Qed.

(** ** The mode toggle, repeated *)

Lemma set_mode_same (s : GUIOSGManipulator) : set_mode (myCurrentMode s) s = s.
Proof. now destruct s. Qed.

Lemma handleKeyUp_toggle (ea : GUIEventAdapter) (s : GUIOSGManipulator) :
  getKey ea = KEY_F ->
  snd (handleKeyUp ea s)
  = set_mode (match myCurrentMode s with
              | MODE_TERRAIN => MODE_EGO
              | _ => MODE_TERRAIN
              end) s.
Proof.
  intro Hk. unfold handleKeyUp. rewrite Hk.
  destruct (myCurrentMode s); reflexivity.
Qed.

Lemma toggles_two_more (ea : GUIEventAdapter) (n : nat)
    (s : GUIOSGManipulator) :
  getKey ea = KEY_F -> myCurrentMode s <> MODE_WALK ->
  handleKeys (repeat (KEYUP ea) (S (S n))) s
  = handleKeys (repeat (KEYUP ea) n) s.
Proof.
  intros Hk Hw. unfold handleKeys. simpl. f_equal.
  rewrite !handleKeyUp_toggle by exact Hk.
  destruct s as [mode h sp mv c q d vaf t0 t1 tk]. simpl in *.
  destruct mode; try reflexivity. congruence.
Qed.

(** X2.  The toggle key only ever changes the mode, and between ego and
    terrain mode it is an involution: after [n] releases of the toggle key
    the manipulator is as it was when [n] is even, and in the other of the
    two modes when [n] is odd.  From walk mode the first release leads to
    terrain mode, and walk mode is not seen again. *)
Theorem toggle_parity (ea : GUIEventAdapter) (n : nat)
    (s : GUIOSGManipulator) :
  getKey ea = KEY_F ->
  let s' := handleKeys (repeat (KEYUP ea) n) s in
  s' = set_mode (myCurrentMode s') s
  /\ (myCurrentMode s <> MODE_WALK ->
      s' = if Nat.even n then s
           else set_mode (match myCurrentMode s with
                          | MODE_TERRAIN => MODE_EGO
                          | _ => MODE_TERRAIN
                          end) s)
  /\ (myCurrentMode s = MODE_WALK -> (0 < n)%nat ->
      myCurrentMode s' = if Nat.even n then MODE_EGO else MODE_TERRAIN).
Proof.
  intros Hk.
  assert (Hparity : forall n s, myCurrentMode s <> MODE_WALK ->
            handleKeys (repeat (KEYUP ea) n) s
            = if Nat.even n then s
              else set_mode (match myCurrentMode s with
                             | MODE_TERRAIN => MODE_EGO
                             | _ => MODE_TERRAIN
                             end) s).
  { clear n s. intros n.
    induction n as [n IH] using (well_founded_induction lt_wf).
    intros s Hw. destruct n as [|[|n]].
    - reflexivity.
    - unfold handleKeys. simpl. now apply handleKeyUp_toggle.
    - rewrite toggles_two_more by assumption.
      rewrite IH by (try lia; assumption). reflexivity. }
  cbv zeta. split; [|split].
  - destruct (myCurrentMode s) eqn:Hm.
    + rewrite Hparity by congruence.
      destruct (Nat.even n); [now rewrite set_mode_same|].
      rewrite Hm. now destruct s.
    + destruct n as [|n]; [simpl; now rewrite set_mode_same|].
      change (handleKeys (repeat (KEYUP ea) (S n)) s)
        with (handleKeys (repeat (KEYUP ea) n) (snd (handleKeyUp ea s))).
      rewrite handleKeyUp_toggle by exact Hk. rewrite Hm.
      rewrite Hparity by (destruct s; simpl; congruence).
      destruct (Nat.even n); now destruct s.
    + rewrite Hparity by congruence.
      destruct (Nat.even n); [now rewrite set_mode_same|].
      rewrite Hm. now destruct s.
  - intro Hw. now apply Hparity.
  - intros Hm Hn. destruct n as [|n]; [lia|].
    change (handleKeys (repeat (KEYUP ea) (S n)) s)
      with (handleKeys (repeat (KEYUP ea) n) (snd (handleKeyUp ea s))).
    rewrite handleKeyUp_toggle by exact Hk. rewrite Hm.
    rewrite Hparity by (destruct s; simpl; congruence).
    rewrite Nat.even_succ, <- Nat.negb_even.
    destruct (Nat.even n); now destruct s.
Qed.

(** ** Walk mode *)

(** X3.  No method tells walk mode from ego mode: a manipulator in walk
    mode has the view matrix and the inverse view matrix of the same
    manipulator in ego mode, ignores the three drags as it does, answers
    every key-down and key-up with the same result, and is led by them to
    the same state, but for the mode where the event leaves the mode
    alone. *)
Theorem walk_mode_is_ego_mode (s : GUIOSGManipulator) :
  myCurrentMode s = MODE_WALK ->
  let e := set_mode MODE_EGO s in
  getMatrix s = getMatrix e
  /\ getInverseMatrix s = getInverseMatrix e
  /\ (forall dt dx dy,
        performMovementLeftMouseButton dt dx dy s = (false, s)
        /\ performMovementMiddleMouseButton dt dx dy s = (false, s)
        /\ performMovementRightMouseButton dt dx dy s = (false, s)
        /\ performMovementLeftMouseButton dt dx dy e = (false, e)
        /\ performMovementMiddleMouseButton dt dx dy e = (false, e)
        /\ performMovementRightMouseButton dt dx dy e = (false, e))
  /\ (forall ea,
        fst (handleKeyDown ea s) = fst (handleKeyDown ea e)
        /\ snd (handleKeyDown ea s)
           = set_mode MODE_WALK (snd (handleKeyDown ea e)))
  /\ (forall ea,
        fst (handleKeyUp ea s) = fst (handleKeyUp ea e)
        /\ snd (handleKeyUp ea s)
           = match getKey ea with
             | KEY_F => snd (handleKeyUp ea e)
             | _ => set_mode MODE_WALK (snd (handleKeyUp ea e))
             end).
Proof.
  intro Hm. destruct s as [mode h sp mv c q d vaf t0 t1 tk].
  simpl in Hm. subst mode. cbv zeta.
  split; [reflexivity|]. split; [reflexivity|]. split; [|split].
  - intros dt dx dy. repeat split.
  - intro ea. unfold handleKeyDown.
    destruct (getKey ea); split; reflexivity.
  - intro ea. unfold handleKeyUp.
    destruct (getKey ea); split; reflexivity.
Qed.

(** ** Turning the camera *)

(** X4.  [setByMatrix] writes the centre and the rotation and nothing
    else, and it reads neither of the two: of two calls in a row only the
    second one shows. *)
Theorem setByMatrix_overwrites (m m' : matrix) (s : GUIOSGManipulator) :
  rest_of (setByMatrix m s) = rest_of s
  /\ setByMatrix m (setByMatrix m' s) = setByMatrix m s.
Proof.
  split; [apply setByMatrix_rest|].
  rewrite !(setByMatrix_stores m).
  assert (H := setByMatrix_rest m' s).
  destruct (setByMatrix m' s) as [mode' h' sp' mv' c' q' d' vaf' t0' t1' tk'].
  destruct s as [mode h sp mv c q d vaf t0 t1 tk].
  unfold rest_of in H. simpl in H. inversion H; subst. simpl.
  destruct vaf; [|reflexivity].
  now destruct (fixVerticalAxis_at _ _ true).
Qed.

(** X5.  Whatever yaw, pitch and up axis it is given, and whichever exit
    its loop takes, [rotateYawPitch] changes the centre and the rotation
    only: the mode, the move vector, the move speed, the distance, the
    vertical-axis flag, the pointer samples and the toolkit's state are as
    before. *)
Theorem rotateYawPitch_frame
    (fuel : nat) (r : QuatRef) (yaw pitch : scalar) (localUp : Vec3)
    (s s' : GUIOSGManipulator) :
  rotateYawPitch fuel r yaw pitch localUp s = Some s' ->
  rest_of s' = rest_of s.
Proof.
  rewrite rotateYawPitch_exit. cbv zeta.
  destruct (pitch_loop fuel _ _ _ localUp _ pitch 0) as [[[e dy] i]|];
    [|discriminate].
  intro H. inversion H; subst.
  destruct e; unfold rotateYawPitch_leave;
    rewrite setByMatrix_rest; apply rotateYawPitch_enter_rest.
Qed.

End MoreProperties.

(** ** The names of the modes *)

(** X6.  The table of mode names holds all three entries of its
    initializer (the terminator key is that of the last one), every mode has
    a name, so that [updateHUD] always finds its text, and the two look-ups
    are inverse to each other: the three names are distinct. *)
Theorem ModeText_bijection :
  ModeText = ModeTextInitializer
  /\ (forall key, exists str,
        ModeText_getString key = Some str /\ ModeText_get str = Some key)
  /\ (forall str key,
        ModeText_get str = Some key -> ModeText_getString key = Some str)
  /\ (forall (SC : Scalar) (OSG : Osg) (s : GUIOSGManipulator),
        hud_text s <> None).
Proof.
  split; [reflexivity|]. split; [|split].
  - intros []; eexists; split; reflexivity.
  - intros str key. unfold ModeText_get, ModeText. cbn -[String.eqb].
    destruct (String.eqb "terrain mode" str) eqn:E1.
    { apply String.eqb_eq in E1. subst. intro H. inversion H. reflexivity. }
    destruct (String.eqb "walk mode" str) eqn:E2.
    { apply String.eqb_eq in E2. subst. intro H. inversion H. reflexivity. }
    destruct (String.eqb "ego mode" str) eqn:E3.
    { apply String.eqb_eq in E3. subst. intro H. inversion H. reflexivity. }
    intro H. discriminate H.
  - intros SC OSG s. unfold hud_text.
    destruct (myCurrentMode s); discriminate.
Qed.

(* ================================================================= *)
(** * Further properties, in exact arithmetic *)

Section MoreExactProperties.
Context {SC : Scalar} {OSG : Osg} {BASE : ManipulatorBase}.
Context {EX : OsgExact}.

Add Ring scalar_ring_keys : scalar_ring.

(** ** The move vector under key presses *)

Lemma smul_nat_succ (n : nat) (a : scalar) :
  smul_nat (S n) a = sadd (smul_nat n a) a.
Proof. reflexivity. Qed.

Lemma count_key_cons (k : KeySymbol) (ea : GUIEventAdapter)
    (eas : list GUIEventAdapter) :
  count_key k (ea :: eas)
  = if key_eqb (getKey ea) k then S (count_key k eas) else count_key k eas.
Proof.
  unfold count_key. simpl. now destruct (key_eqb (getKey ea) k).
Qed.

Lemma handleKeyDown_speed (ea : GUIEventAdapter) (s : GUIOSGManipulator) :
  myMoveSpeed (snd (handleKeyDown ea s)) = myMoveSpeed s.
Proof. unfold handleKeyDown. destruct (getKey ea); reflexivity. Qed.

Lemma handleKeyDown_move (ea : GUIEventAdapter) (s : GUIOSGManipulator) :
  myMove (snd (handleKeyDown ea s))
  = match getKey ea with
    | KEY_Up => V3 (vx (myMove s)) (vy (myMove s))
                   (ssub (vz (myMove s)) (myMoveSpeed s))
    | KEY_Down => V3 (vx (myMove s)) (vy (myMove s))
                     (sadd (vz (myMove s)) (myMoveSpeed s))
    | KEY_Right => V3 (sadd (vx (myMove s)) (myMoveSpeed s))
                      (vy (myMove s)) (vz (myMove s))
    | KEY_Left => V3 (ssub (vx (myMove s)) (myMoveSpeed s))
                     (vy (myMove s)) (vz (myMove s))
    | _ => myMove s
    end.
Proof. unfold handleKeyDown. destruct (getKey ea); reflexivity. Qed.

(** X7.  Key presses add up: without a key release in between, the move
    vector after any sequence of key-down events is the one before plus the
    move speed times (presses of Right minus presses of Left) in x and
    times (presses of Down minus presses of Up) in z.  Its y component never
    changes, other keys do not count, and nothing bounds the sum. *)
Theorem key_downs_accumulate
    (eas : list GUIEventAdapter) (s : GUIOSGManipulator) :
  let s' := handleKeys (map KEYDOWN eas) s in
  let n k := smul_nat (count_key k eas) (myMoveSpeed s) in
  myMove s'
  = V3 (sadd (vx (myMove s)) (ssub (n KEY_Right) (n KEY_Left)))
       (vy (myMove s))
       (sadd (vz (myMove s)) (ssub (n KEY_Down) (n KEY_Up))).
Proof.
  cbv zeta. revert s.
  induction eas as [|ea eas IH]; intro s.
  - unfold handleKeys, count_key, smul_nat. simpl.
    destruct (myMove s) as [x y z]. simpl. f_equal; ring.
  - change (handleKeys (map KEYDOWN (ea :: eas)) s)
      with (handleKeys (map KEYDOWN eas) (snd (handleKeyDown ea s))).
    rewrite IH, handleKeyDown_speed, handleKeyDown_move.
    rewrite !count_key_cons.
    destruct (getKey ea); cbn [key_eqb vx vy vz];
      rewrite ?smul_nat_succ; f_equal; ring.
Qed.

End MoreExactProperties.

Section RotationProperties.
Context {SC : Scalar} {OSG : Osg} {BASE : ManipulatorBase}.
Context {EX : OsgExact} {ER : OsgExactRotation}.

Add Ring scalar_ring_rotation : scalar_ring.

Lemma v3_add_0_r (v : Vec3) : v3_add v (V3 s0 s0 s0) = v.
Proof. destruct v. unfold v3_add. simpl. f_equal; ring. Qed.

Lemma v3_to_float_idem (v : Vec3) :
  v3_to_float (v3_to_float v) = v3_to_float v.
Proof. unfold v3_to_float. simpl. now rewrite !to_float_idem. Qed.

Lemma eye_of_double (s : GUIOSGManipulator) :
  eye_of s = v3_to_float (eye_double s).
Proof. reflexivity. Qed.

Lemma eye_of_idem (s : GUIOSGManipulator) : v3_to_float (eye_of s) = eye_of s.
Proof. rewrite eye_of_double. apply v3_to_float_idem. Qed.

(** ** Keys that move nothing *)

(** X8.  While the move vector is zero, a key-down event of a key that is
    no movement key changes nothing and is not handled.  This is the state
    every release of a movement key leads to. *)
Theorem handleKeyDown_at_rest
    (ea : GUIEventAdapter) (s : GUIOSGManipulator) :
  movement_key (getKey ea) = false ->
  (myMove s = V3 s0 s0 s0 -> handleKeyDown ea s = (false, s))
  /\ (forall up, movement_key (getKey up) = true ->
        handleKeyDown ea (snd (handleKeyUp up s))
        = (false, snd (handleKeyUp up s))).
Proof.
  intro Hk.
  assert (Hrest : forall s, myMove s = V3 s0 s0 s0 ->
                    handleKeyDown ea s = (false, s)).
  { clear s. intros s Hm. unfold handleKeyDown.
    destruct (getKey ea); simpl in Hk; try discriminate;
      rewrite Hm, quat_rotate_zero, v3_add_0_r, set_center_same;
      reflexivity. }
  split; [apply Hrest|].
  intros up Hup. apply Hrest. unfold handleKeyUp.
  destruct (getKey up); simpl in Hup; try discriminate; reflexivity.
Qed.

(** ** Where a key press moves the centre *)

Lemma getMatrix_getRotate (s : GUIOSGManipulator) :
  m_getRotate (getMatrix s) = m_getRotate (m_rotate (_rotation s)).
Proof.
  unfold getMatrix.
  destruct (mode_eqb (myCurrentMode s) MODE_TERRAIN); cbv zeta.
  - now rewrite <- !m_mul_assoc, m_getRotate_translate_l,
      m_getRotate_translate_r.
  - apply m_getRotate_translate_r.
Qed.

(** X15.  In exact arithmetic, for a unit quaternion and in every mode, a
    key-down event moves the centre by the new move vector turned by
    [_rotation], that is along the camera's own axes: the first press of Up
    from rest moves it by the move speed along the viewing direction, the
    camera's negative z axis. *)
Theorem handleKeyDown_moves_along_view
    (ea : GUIEventAdapter) (s : GUIOSGManipulator) :
  quat_length2 (_rotation s) = s1 ->
  let s' := snd (handleKeyDown ea s) in
  _center s' = v3_add (_center s) (quat_rotate (_rotation s) (myMove s'))
  /\ (getKey ea = KEY_Up -> myMove s = V3 s0 s0 s0 ->
      _center s'
      = v3_add (_center s)
          (quat_rotate (_rotation s) (V3 s0 s0 (sneg (myMoveSpeed s))))).
Proof.
  intros Hq s'.
  assert (Hc : _center s'
               = v3_add (_center s) (quat_rotate (_rotation s) (myMove s'))).
  { unfold s', handleKeyDown.
    destruct (getKey ea);
      cbn [snd _center set_center myMove set_move _rotation];
      rewrite getMatrix_getRotate;
      cbn [snd _center set_center myMove set_move _rotation];
      (rewrite quat_rotate_getRotate by (destruct s; exact Hq));
      destruct s; reflexivity. }
  split; [exact Hc|].
  intros Hk Hm. rewrite Hc. unfold s'.
  rewrite handleKeyDown_move, Hk, Hm. cbn [vx vy vz].
  do 3 f_equal. ring.
Qed.

(** ** The zero up axis *)

Lemma v3_neqb_refl (v : Vec3) : v3_neqb v v = false.
Proof. unfold v3_neqb. now rewrite !seqb_refl. Qed.

Lemma hemisphere_zero (q : quat) : hemisphere_ok q (V3 s0 s0 s0) = false.
Proof.
  unfold hemisphere_ok. cbv zeta.
  destruct (quat_rotate q (V3 s0 s1 s0)) as [x y z].
  unfold v3_dot. simpl.
  replace (sadd (sadd (smul x s0) (smul y s0)) (smul z s0)) with s0 by ring.
  apply sgtb_irrefl.
Qed.

(** X9.  Called with the zero up axis, [rotateYawPitch] never applies the
    pitch: no candidate passes the test [newCameraUp * localUp > 0.], the
    loop runs its twenty passes, and the state installed is that of the yaw
    about the camera's own up vector, the same for every pitch. *)
Theorem rotateYawPitch_zero_up_ignores_pitch
    (fuel : nat) (r : QuatRef) (yaw pitch : scalar)
    (s : GUIOSGManipulator) :
  (20 <= fuel)%nat ->
  let rotation := deref r s in
  let rotateYaw :=
    quat_angle_axis (sneg yaw) (quat_rotate rotation (V3 s0 s1 s0)) in
  rotateYawPitch fuel r yaw pitch (V3 s0 s0 s0) s
  = Some (setByMatrix
            (m_mul (m_mul (m_rotate rotation) (m_rotate rotateYaw))
                   (m_translate (eye_of s))) s).
Proof.
  intros Hfuel. cbv zeta. rewrite rotateYawPitch_exit. cbv zeta.
  unfold rotateYawPitch_enter. rewrite v3_neqb_refl.
  cbn [yp_rotation yp_rotateYaw yp_cameraRight yp_verticalAxisFixed
       yp_state yp_eye].
  rewrite (pitch_loop_all_rejected _ _ _ _ _ 20 pitch 0 eq_refl
             ltac:(lia) (fun k _ => hemisphere_zero _) fuel Hfuel).
  reflexivity.
Qed.

(** ** Pointer events that cannot turn the camera *)

(** X10.  In ego and walk mode a pointer event that carries the time of the
    previous sample, or lies at the pointer centre [(0, 0)], is never
    handled: both deltas are zero (the conversion to [float] is used at
    zero only), the event is recorded as the newest sample and nothing else
    happens.  So the event that re-centring the pointer causes does not turn
    the camera again. *)
Theorem handleMouseMove_still
    (fuel : nat) (ea t1 : GUIEventAdapter) (s : GUIOSGManipulator) :
  myCurrentMode s <> MODE_TERRAIN ->
  _ga_t0 s = Some t1 ->
  getTime ea = getTime t1
  \/ (getXnormalized ea = s0 /\ getYnormalized ea = s0) ->
  handleMouseMove fuel ea s = Some (false, addMouseEvent ea s).
Proof.
  intros Hmode Ht0 Hstill.
  assert (Hd : forall x, (x = getXnormalized ea \/ x = getYnormalized ea) ->
             to_float (smul x (ssub (getTime ea) (getTime t1))) = s0).
  { intros x Hx.
    replace (smul x (ssub (getTime ea) (getTime t1))) with s0;
      [apply to_float_zero|].
    destruct Hstill as [-> | [H1 H2]].
    - ring.
    - destruct Hx as [-> | ->]; [rewrite H1 | rewrite H2]; ring. }
  assert (Hdm : handleMouseDeltaMovement fuel ea s
                = Some (false, addMouseEvent ea s)).
  { unfold handleMouseDeltaMovement.
    destruct (addMouseEvent_camera ea s) as (_ & H0 & H1).
    rewrite H0, H1, Ht0. cbv zeta.
    rewrite !Hd by (now left + now right).
    now rewrite seqb_refl. }
  unfold handleMouseMove.
  destruct (myCurrentMode s); [exact Hdm | exact Hdm | congruence].
Qed.

(** ** The view matrix of ego mode and the state *)

Lemma getMatrix_not_terrain (s : GUIOSGManipulator) :
  myCurrentMode s <> MODE_TERRAIN ->
  getMatrix s = m_mul (m_rotate (_rotation s)) (m_translate (eye_of s)).
Proof.
  intro Hmode. apply mode_eqb_neq in Hmode.
  unfold getMatrix. now rewrite Hmode.
Qed.

Lemma m_preMult_rotate_translate (v e : Vec3) (q : quat) :
  quat_length2 q = s1 ->
  m_preMult v (m_mul (m_rotate q) (m_translate e))
  = v3_add (quat_rotate q v) e.
Proof.
  intro Hq.
  now rewrite m_preMult_rotate_then, m_preMult_rotate, m_preMult_translate.
Qed.

Lemma v3_add_sub_l (a b : Vec3) : v3_add a (v3_sub b a) = b.
Proof.
  destruct a, b. unfold v3_add, v3_sub. simpl. f_equal; ring.
Qed.

Lemma v3_add_sub_r (a b : Vec3) : v3_sub (v3_add a b) a = b.
Proof.
  destruct a, b. unfold v3_add, v3_sub. simpl. f_equal; ring.
Qed.

(** What [setByMatrix] makes of a rotation followed by a translation, when
    it stores the decomposition as it is: the eye is at the translation,
    rounded to [float]. *)
Lemma setByMatrix_about_eye (q : quat) (e : Vec3) (s : GUIOSGManipulator) :
  quat_length2 q = s1 ->
  let m := m_mul (m_rotate q) (m_translate e) in
  let c := m_preMult (V3 s0 s0 (sneg (_distance s))) m in
  (_verticalAxisFixed s = true ->
   fixVerticalAxis_at c (m_getRotate m) true = (c, m_getRotate m)) ->
  _center (setByMatrix m s)
  = v3_add (quat_rotate q (V3 s0 s0 (sneg (_distance s)))) e
  /\ eye_of (setByMatrix m s) = v3_to_float e
  /\ m_rotate (_rotation (setByMatrix m s)) = m_rotate q
  /\ (forall v, quat_rotate (_rotation (setByMatrix m s)) v = quat_rotate q v).
Proof.
  intros Hq m c Hfix.
  assert (Hset : setByMatrix m s = set_rotation (m_getRotate m) (set_center c s)).
  { rewrite setByMatrix_stores. fold m. fold c.
    destruct (_verticalAxisFixed s); [|reflexivity].
    now rewrite (Hfix eq_refl). }
  assert (Hc : c = v3_add (quat_rotate q (V3 s0 s0 (sneg (_distance s)))) e).
  { unfold c, m. now apply m_preMult_rotate_translate. }
  assert (Hg : m_getRotate m = m_getRotate (m_rotate q)).
  { unfold m. apply m_getRotate_translate_r. }
  rewrite Hset, Hg, Hc.
  destruct s as [mode h sp mv c0 q0 d vaf t0 t1 tk].
  unfold eye_of. simpl.
  rewrite quat_rotate_getRotate by exact Hq.
  split; [reflexivity|]. split; [now rewrite v3_add_sub_r|]. split.
  - now apply m_getRotate_rotate.
  - intro v. now apply quat_rotate_getRotate.
Qed.

(** X11.  In ego and walk mode, with exact operations on [double] and for a
    unit quaternion, decomposing the matrix of [getMatrix] gives a
    quaternion that rotates every vector as the original one does, and as
    centre [_rotation * (0,0,-_distance) + eye] for the [float] eye of the
    matrix.  When [setByMatrix] stores the two as they are (the vertical
    axis is not fixed, or the re-levelling has nothing to correct), the
    eye, the action of the rotation and hence the matrix of [getMatrix] are
    as before; the centre is the old one up to the rounding of the eye to
    [osg::Vec3f], and exactly the old one when the eye is a [float]
    already. *)
Theorem setByMatrix_getMatrix_ego (s : GUIOSGManipulator) :
  myCurrentMode s <> MODE_TERRAIN ->
  quat_length2 (_rotation s) = s1 ->
  let m := getMatrix s in
  let c := m_preMult (V3 s0 s0 (sneg (_distance s))) m in
  c = v3_add (quat_rotate (_rotation s) (V3 s0 s0 (sneg (_distance s))))
        (eye_of s)
  /\ (forall v, quat_rotate (m_getRotate m) v = quat_rotate (_rotation s) v)
  /\ ((_verticalAxisFixed s = true ->
       fixVerticalAxis_at c (m_getRotate m) true = (c, m_getRotate m)) ->
      _center (setByMatrix m s) = c
      /\ eye_of (setByMatrix m s) = eye_of s
      /\ (forall v, quat_rotate (_rotation (setByMatrix m s)) v
                    = quat_rotate (_rotation s) v)
      /\ getMatrix (setByMatrix m s) = m
      /\ (v3_to_float (eye_double s) = eye_double s ->
          _center (setByMatrix m s) = _center s)).
Proof.
  intros Hmode Hq m c.
  assert (Hm : m = m_mul (m_rotate (_rotation s)) (m_translate (eye_of s)))
    by (apply getMatrix_not_terrain; exact Hmode).
  assert (Hc : c = v3_add (quat_rotate (_rotation s)
                             (V3 s0 s0 (sneg (_distance s)))) (eye_of s)).
  { unfold c. rewrite Hm. now apply m_preMult_rotate_translate. }
  assert (Hr : forall v,
             quat_rotate (m_getRotate m) v = quat_rotate (_rotation s) v).
  { intro v. rewrite Hm, m_getRotate_translate_r.
    now apply quat_rotate_getRotate. }
  split; [exact Hc|]. split; [exact Hr|].
  intro Hfix.
  assert (Hfix' :
    _verticalAxisFixed s = true ->
    fixVerticalAxis_at
      (m_preMult (V3 s0 s0 (sneg (_distance s)))
         (m_mul (m_rotate (_rotation s)) (m_translate (eye_of s))))
      (m_getRotate (m_mul (m_rotate (_rotation s)) (m_translate (eye_of s))))
      true
    = (m_preMult (V3 s0 s0 (sneg (_distance s)))
         (m_mul (m_rotate (_rotation s)) (m_translate (eye_of s))),
       m_getRotate (m_mul (m_rotate (_rotation s)) (m_translate (eye_of s))))).
  { intro Hv. rewrite <- Hm. exact (Hfix Hv). }
  destruct (setByMatrix_about_eye (_rotation s) (eye_of s) s Hq Hfix')
    as (Hc' & He & Hrm & Hrv).
  rewrite <- Hm in Hc', He, Hrm, Hrv. rewrite eye_of_idem in He.
  split; [now rewrite Hc', Hc|]. split; [exact He|]. split; [exact Hrv|].
  split.
  - assert (Hmode' : myCurrentMode (setByMatrix m s) <> MODE_TERRAIN).
    { assert (H := setByMatrix_rest m s). unfold rest_of in H.
      inversion H as [Hmd]. now rewrite Hmd. }
    rewrite (getMatrix_not_terrain _ Hmode'), He, Hrm. now rewrite Hm.
  - intro Hexact. rewrite Hc', eye_of_double, Hexact.
    unfold eye_double. apply v3_add_sub_l.
Qed.

(** X12.  From a matrix to the state and back: when the vertical axis is
    not fixed, [setByMatrix] of a unit quaternion's rotation followed by the
    translation to [e] stores a rotation with the same matrix and puts the
    eye at [e] rounded to [float], so that in ego and walk mode [getMatrix]
    returns the rotation followed by the translation to the rounded [e]:
    the matrix that was set whenever [e] is a [float] already, as the eye
    that [rotateYawPitch] passes is. *)
Theorem getMatrix_setByMatrix_ego
    (q : quat) (e : Vec3) (s : GUIOSGManipulator) :
  myCurrentMode s <> MODE_TERRAIN ->
  quat_length2 q = s1 ->
  _verticalAxisFixed s = false ->
  let m := m_mul (m_rotate q) (m_translate e) in
  eye_of (setByMatrix m s) = v3_to_float e
  /\ m_rotate (_rotation (setByMatrix m s)) = m_rotate q
  /\ getMatrix (setByMatrix m s)
     = m_mul (m_rotate q) (m_translate (v3_to_float e))
  /\ (v3_to_float e = e -> getMatrix (setByMatrix m s) = m)
  /\ (forall t, getMatrix (setByMatrix
                              (m_mul (m_rotate q) (m_translate (eye_of t))) s)
                 = m_mul (m_rotate q) (m_translate (eye_of t))).
Proof.
  intros Hmode Hq Hv m.
  assert (Hgen : forall e',
    eye_of (setByMatrix (m_mul (m_rotate q) (m_translate e')) s)
    = v3_to_float e'
    /\ m_rotate (_rotation (setByMatrix (m_mul (m_rotate q) (m_translate e')) s))
       = m_rotate q
    /\ getMatrix (setByMatrix (m_mul (m_rotate q) (m_translate e')) s)
       = m_mul (m_rotate q) (m_translate (v3_to_float e'))).
  { intro e'.
    destruct (setByMatrix_about_eye q e' s Hq) as (_ & He & Hr & _).
    { intro H. congruence. }
    split; [exact He|]. split; [exact Hr|].
    assert (Hmode' : myCurrentMode
                       (setByMatrix (m_mul (m_rotate q) (m_translate e')) s)
                     <> MODE_TERRAIN).
    { assert (H := setByMatrix_rest (m_mul (m_rotate q) (m_translate e')) s).
      unfold rest_of in H. inversion H as [Hmd]. now rewrite Hmd. }
    now rewrite (getMatrix_not_terrain _ Hmode'), He, Hr. }
  destruct (Hgen e) as (He & Hr & Hm).
  split; [exact He|]. split; [exact Hr|]. split; [exact Hm|]. split.
  - intro Hexact. fold m in Hm. rewrite Hm, Hexact. reflexivity.
  - intro t. destruct (Hgen (eye_of t)) as (_ & _ & Hm').
    now rewrite Hm', eye_of_idem.
Qed.

(** X13.  [rotateYawPitch] turns the camera about the eye.  When the
    vertical axis of the manipulator is not fixed and the quaternions are of
    unit length, the state installed by either exit of the loop has the eye
    where it was when the loop was entered, and as its rotation the accepted
    candidate, or the yaw applied to the rotation; and the eye is that of
    the state before the call unless the re-levelling on entry wrote a
    different rotation to [_rotation]. *)
Theorem rotateYawPitch_keeps_eye
    (fuel : nat) (r : QuatRef) (yaw pitch : scalar) (localUp : Vec3)
    (s : GUIOSGManipulator) (e : LoopExit) (dy : scalar) (i : Z) :
  _verticalAxisFixed s = false ->
  let f := rotateYawPitch_enter r yaw localUp s in
  pitch_loop fuel (yp_rotation f) (yp_rotateYaw f) (yp_cameraRight f)
    localUp (yp_verticalAxisFixed f) pitch 0 = Some (e, dy, i) ->
  let installed :=
    match e with
    | Accepted q => q
    | YawOnly => quat_mul (yp_rotation f) (yp_rotateYaw f)
    end in
  match e with
  | Accepted q => quat_length2 q = s1
  | YawOnly => quat_length2 (yp_rotation f) = s1
               /\ quat_length2 (yp_rotateYaw f) = s1
  end ->
  exists s',
    rotateYawPitch fuel r yaw pitch localUp s = Some s'
    /\ eye_of s' = eye_of (yp_state f)
    /\ m_rotate (_rotation s') = m_rotate installed
    /\ (yp_state f = s -> eye_of s' = eye_of s).
Proof.
  intros Hv f Hloop installed Hunit.
  exists (rotateYawPitch_leave f e).
  split.
  { rewrite rotateYawPitch_exit. cbv zeta. fold f. now rewrite Hloop. }
  assert (Hv' : _verticalAxisFixed (yp_state f) = false).
  { assert (H := rotateYawPitch_enter_rest r yaw localUp s). fold f in H.
    unfold rest_of in H. inversion H as [[Hm Hh Hsp Hmv Hd Hvaf Ht0 Ht1 Htk]].
    now rewrite Hvaf. }
  assert (Heye : yp_eye f = eye_of (yp_state f)).
  { unfold f, rotateYawPitch_enter.
    destruct (v3_neqb localUp (V3 s0 s0 s0)); [|reflexivity].
    destruct r; reflexivity. }
  assert (Habout : forall q, quat_length2 q = s1 ->
            eye_of (setByMatrix (m_mul (m_rotate q) (m_translate (yp_eye f)))
                      (yp_state f)) = eye_of (yp_state f)
            /\ m_rotate (_rotation (setByMatrix
                           (m_mul (m_rotate q) (m_translate (yp_eye f)))
                           (yp_state f))) = m_rotate q).
  { intros q Hq.
    destruct (setByMatrix_about_eye q (yp_eye f) (yp_state f) Hq)
      as (_ & He & Hr & _).
    { intro H. congruence. }
    split; [|exact Hr]. now rewrite He, Heye, eye_of_idem. }
  assert (Hgoal : eye_of (rotateYawPitch_leave f e) = eye_of (yp_state f)
                  /\ m_rotate (_rotation (rotateYawPitch_leave f e))
                     = m_rotate installed).
  { destruct e as [q|]; unfold rotateYawPitch_leave, installed.
    - now apply Habout.
    - destruct Hunit as [Hq Hy].
      rewrite m_rotate_mul by assumption.
      apply Habout. now apply quat_mul_unit. }
  destruct Hgoal as [He Hr].
  split; [exact He|]. split; [exact Hr|].
  intro Hs. now rewrite He, Hs.
Qed.

(** ** The view in the two kinds of mode *)

Lemma v3_sub_rotate_neg (c : Vec3) (q : quat) (d : scalar) :
  v3_sub c (quat_rotate q (V3 s0 s0 (sneg d)))
  = v3_add (quat_rotate q (V3 s0 s0 d)) c.
Proof.
  replace (V3 s0 s0 (sneg d)) with (v3_neg (V3 s0 s0 d))
    by (unfold v3_neg; simpl; f_equal; ring).
  rewrite quat_rotate_neg.
  destruct (quat_rotate q (V3 s0 s0 d)) as [x y z], c as [a b c].
  unfold v3_sub, v3_add, v3_neg. simpl. f_equal; ring.
Qed.

(** The matrix of terrain mode is the rotation followed by the translation
    to the eye, in double precision. *)
Lemma getMatrix_terrain_eye (s : GUIOSGManipulator) :
  quat_length2 (_rotation s) = s1 ->
  m_mul (m_mul (m_translate (V3 s0 s0 (_distance s)))
               (m_rotate (_rotation s)))
        (m_translate (_center s))
  = m_mul (m_rotate (_rotation s)) (m_translate (eye_double s)).
Proof.
  intro Hq. unfold eye_double. rewrite v3_sub_rotate_neg.
  rewrite (m_translate_rotate _ _ Hq), <- m_mul_assoc, m_translate_add.
  reflexivity.
Qed.

Lemma view_matrices_inverse (s : GUIOSGManipulator) :
  quat_length2 (_rotation s) = s1 ->
  m_mul (getMatrix s) (getInverseMatrix s) = m_identity
  /\ m_mul (getInverseMatrix s) (getMatrix s) = m_identity.
Proof.
  intro Hq. unfold getMatrix, getInverseMatrix.
  destruct (mode_eqb (myCurrentMode s) MODE_TERRAIN); cbv zeta; split.
  - apply m_mul_inverse3;
      [apply translate_distance_r | now apply m_rotate_inverse_r
       | apply translate_neg_r].
  - apply m_mul_inverse3;
      [apply translate_neg_l | now apply m_rotate_inverse_l
       | apply translate_distance_l].
  - apply m_mul_inverse2;
      [now apply m_rotate_inverse_r | apply translate_neg_r].
  - apply m_mul_inverse2;
      [apply translate_neg_l | now apply m_rotate_inverse_l].
Qed.

(** X14.  With exact operations on [double] and for a unit quaternion,
    both branches of [getMatrix] compute the rotation followed by the
    translation to the eye: the branch of terrain mode with the eye in
    double precision, that of ego and walk mode with the eye rounded to
    [osg::Vec3f].  So a change of mode changes the view by the rounding of
    the eye and no more; when the eye is a [float] already, the matrices of
    [getMatrix] and of [getInverseMatrix] are the same in every mode, and no
    key release, the mode toggle included, changes them. *)
Theorem getMatrix_modes_agree_up_to_float (s : GUIOSGManipulator) :
  quat_length2 (_rotation s) = s1 ->
  (forall mode,
     getMatrix (set_mode mode s)
     = m_mul (m_rotate (_rotation s))
         (m_translate
            (match mode with
             | MODE_TERRAIN => eye_double s
             | _ => v3_to_float (eye_double s)
             end)))
  /\ (v3_to_float (eye_double s) = eye_double s ->
      (forall mode,
         getMatrix (set_mode mode s) = getMatrix s
         /\ getInverseMatrix (set_mode mode s) = getInverseMatrix s)
      /\ (forall ea,
            getMatrix (snd (handleKeyUp ea s)) = getMatrix s
            /\ getInverseMatrix (snd (handleKeyUp ea s))
               = getInverseMatrix s)).
Proof.
  intro Hq.
  assert (Hbranch : forall mode,
     getMatrix (set_mode mode s)
     = m_mul (m_rotate (_rotation s))
         (m_translate
            (match mode with
             | MODE_TERRAIN => eye_double s
             | _ => v3_to_float (eye_double s)
             end))).
  { intro mode. destruct mode.
    - now destruct s.
    - now destruct s.
    - rewrite <- (getMatrix_terrain_eye s Hq). now destruct s. }
  split; [exact Hbranch|].
  intro Hexact.
  assert (Hsame : forall mode, getMatrix (set_mode mode s) = getMatrix s).
  { intro mode. rewrite <- (set_mode_same s) at 2. rewrite !Hbranch.
    destruct mode, (myCurrentMode s); now rewrite ?Hexact. }
  assert (Hmodes : forall mode,
            getMatrix (set_mode mode s) = getMatrix s
            /\ getInverseMatrix (set_mode mode s) = getInverseMatrix s).
  { intro mode. split; [apply Hsame|].
    assert (Hq' : quat_length2 (_rotation (set_mode mode s)) = s1)
      by now destruct s.
    destruct (view_matrices_inverse _ Hq') as [_ Hl].
    destruct (view_matrices_inverse _ Hq) as [Hr _].
    rewrite Hsame in Hl.
    rewrite <- (m_mul_1_r (getInverseMatrix (set_mode mode s))), <- Hr.
    now rewrite m_mul_assoc, Hl, m_mul_1_l. }
  split; [exact Hmodes|].
  intro ea. unfold handleKeyUp.
  destruct (getKey ea); try (split; reflexivity).
  destruct (myCurrentMode s); apply Hmodes.
Qed.

End RotationProperties.

(* ================================================================= *)
(** * Further runs over the real numbers *)

Module RealMoreRuns.
Import RealOsg RealOsgFacts RealOsgRotationFacts RealRuns.
Local Open Scope R_scope.

(** A vector of reals. *)
Local Abbreviation vec := (V3 (SC := RealScalar)).

(** ** Keys *)

(** X2, a run: three releases of the toggle key lead from ego mode to
    terrain mode and change nothing else. *)
Lemma toggle_parity_run :
  let s := start MODE_EGO false pitched 10 (V3 0 0 0) in
  handleKeys (repeat (KEYUP (key_event KEY_F)) 3) s
  = set_mode MODE_TERRAIN s.
Proof.
  intro s.
  refine (proj1 (proj2 (toggle_parity (SC := RealScalar)
                          (key_event KEY_F) 3 s eq_refl)) _).
  discriminate.
Defined.

(** X3, a run: a manipulator in walk mode and the same one in ego mode. *)
Lemma walk_mode_is_ego_mode_run :
  let s := start MODE_WALK false pitched 10 (V3 0 0 0) in
  let e := set_mode MODE_EGO s in
  getMatrix s = getMatrix e
  /\ getInverseMatrix s = getInverseMatrix e
  /\ fst (handleKeyDown (key_event KEY_Up) s)
     = fst (handleKeyDown (key_event KEY_Up) e)
  /\ snd (handleKeyUp (key_event KEY_F) s)
     = snd (handleKeyUp (key_event KEY_F) e).
Proof.
  intros s e.
  destruct (walk_mode_is_ego_mode (SC := RealScalar) s eq_refl)
    as (Hm & Hi & _ & Hdown & Hup).
  split; [exact Hm|]. split; [exact Hi|]. split.
  - exact (proj1 (Hdown (key_event KEY_Up))).
  - exact (proj2 (Hup (key_event KEY_F))).
Defined.

(** X7, a run: Up, Up, Right, the toggle key, Left, Up and Down pressed in
    a row, at the move speed 1: the presses of Right and Left cancel, three
    of Up and one of Down leave [z = -2]. *)
Lemma key_downs_accumulate_run :
  let s := start MODE_EGO false pitched 10 (V3 0 0 0) in
  myMove
    (handleKeys
       (map KEYDOWN
          [key_event KEY_Up; key_event KEY_Up; key_event KEY_Right;
           key_event KEY_F; key_event KEY_Left; key_event KEY_Up;
           key_event KEY_Down]) s)
  = V3 0 0 (-2).
Proof.
  intro s.
  rewrite (key_downs_accumulate (SC := RealScalar)).
  unfold count_key, smul_nat.
  cbn [filter key_eqb getKey key_event List.length
       myMove myMoveSpeed s start vx vy vz
       scalar s0 s1 sadd ssub RealScalar].
  unfold Nat.iter, DEFAULT_MOVESPEED_MIN.
  cbn [nat_rect scalar s1 RealScalar].
  f_equal; lra.
Defined.

(** X8, a run: at rest, a key-down of the toggle key does nothing. *)
Lemma handleKeyDown_at_rest_run :
  let s := start MODE_EGO false pitched 10 (V3 0 0 0) in
  handleKeyDown (key_event KEY_F) s = (false, s).
Proof.
  intro s.
  exact (proj1 (handleKeyDown_at_rest (SC := RealScalar)
                  (key_event KEY_F) s eq_refl) eq_refl).
Defined.

Lemma Quat_identity_unit : Quat_length2 Quat_identity = 1.
Proof. unfold Quat_length2, Quat_identity. cbn [qx qy qz qw]. lra. Qed.

(** X15, a run: the first press of Up, the camera looking along its
    negative z axis at the move speed 1. *)
Lemma handleKeyDown_moves_along_view_run :
  let s := start MODE_TERRAIN false Quat_identity 10 (V3 0 0 0) in
  _center (snd (handleKeyDown (key_event KEY_Up) s)) = V3 0 0 (-1).
Proof.
  intro s.
  rewrite (proj2 (handleKeyDown_moves_along_view (SC := RealScalar)
                    (key_event KEY_Up) s Quat_identity_unit)
             eq_refl eq_refl).
  unfold s. real_ops.
  unfold Quat_rotate, Quat_identity, DEFAULT_MOVESPEED_MIN. cbv zeta.
  vec_ops. f_equal; lra.
Defined.

(** ** Turning *)

(** X5, a run: a level camera, no yaw and no pitch. *)
Lemma rotateYawPitch_frame_run :
  let s := start MODE_EGO true pitched 10 (V3 0 0 0) in
  exists s',
    rotateYawPitch 20 RefRotation 0 0 Z_AXIS s = Some s'
    /\ rest_of s' = rest_of s.
Proof.
  intro s.
  destruct (rotateYawPitch_total (SC := RealScalar) RefRotation 0 0 Z_AXIS s)
    as [s' Hs'].
  exists s'. split; [exact (Hs' 20%nat (le_n 20))|].
  exact (rotateYawPitch_frame (SC := RealScalar) 20 RefRotation 0 0 Z_AXIS
           s s' (Hs' 20%nat (le_n 20))).
Defined.

(** X9, a run: with the zero up axis the pitch 1/5 and the pitch 0 install
    the same state. *)
Lemma rotateYawPitch_zero_up_ignores_pitch_run :
  let s := start MODE_EGO false pitched 10 (V3 0 0 0) in
  rotateYawPitch 20 RefRotation (1 / 10) (1 / 5) (V3 0 0 0) s
  = rotateYawPitch 20 RefRotation (1 / 10) 0 (V3 0 0 0) s.
Proof.
  intro s.
  exact (eq_trans
           (rotateYawPitch_zero_up_ignores_pitch (SC := RealScalar)
              20 RefRotation (1 / 10) (1 / 5) s (le_n 20))
           (eq_sym
              (rotateYawPitch_zero_up_ignores_pitch (SC := RealScalar)
                 20 RefRotation (1 / 10) 0 s (le_n 20)))).
Defined.

(** X10, a run: after a first pointer event at the time 1, a second one at
    the same time is not handled, wherever the pointer is; nor is a later
    one at the pointer centre. *)
Lemma handleMouseMove_still_run :
  let first := pointer_event 1 (1 / 2) (1 / 4) in
  let s := addMouseEvent first (start MODE_EGO true pitched 10 (V3 0 0 0)) in
  let same_time := pointer_event 1 (3 / 4) (1 / 2) in
  let centred := pointer_event 2 0 0 in
  handleMouseMove 20 same_time s = Some (false, addMouseEvent same_time s)
  /\ handleMouseMove 20 centred s = Some (false, addMouseEvent centred s).
Proof.
  intros first s same_time centred. split.
  - apply (handleMouseMove_still (SC := RealScalar) 20 same_time first s).
    + discriminate.
    + reflexivity.
    + left. reflexivity.
  - apply (handleMouseMove_still (SC := RealScalar) 20 centred first s).
    + discriminate.
    + reflexivity.
    + right. split; reflexivity.
Defined.

(** ** The view matrix of ego mode *)

(** X11, a run: a camera in ego mode with the identity rotation, ten units
    from the centre, the vertical axis not fixed.  Its eye [(0, 0, 10)] is a
    [float]: the centre is restored. *)
Lemma setByMatrix_getMatrix_ego_run :
  let s := start MODE_EGO false Quat_identity 10 (V3 0 0 0) in
  eye_double s = V3 0 0 10
  /\ _center (setByMatrix (getMatrix s) s) = _center s
  /\ eye_of (setByMatrix (getMatrix s) s) = eye_of s
  /\ getMatrix (setByMatrix (getMatrix s) s) = getMatrix s.
Proof.
  intro s.
  destruct (setByMatrix_getMatrix_ego (SC := RealScalar) s)
    as (_ & _ & Hset); [discriminate | exact Quat_identity_unit |].
  destruct Hset as (_ & He & _ & Hm & Hc); [discriminate|].
  split; [|split; [exact (Hc eq_refl) | split; [exact He | exact Hm]]].
  unfold eye_double, s. real_ops.
  unfold Quat_rotate, Quat_identity. cbv zeta. vec_ops. f_equal; lra.
Defined.

(** X12, a run: the level camera's rotation and the eye at [(1, 2, 3)],
    which is a [float]. *)
Lemma getMatrix_setByMatrix_ego_run :
  let s := start MODE_EGO false Quat_identity 10 (V3 0 0 0) in
  let m := m_mul (m_rotate pitched) (m_translate (V3 1 2 3)) in
  eye_of (setByMatrix m s) = V3 1 2 3
  /\ getMatrix (setByMatrix m s) = m.
Proof.
  intros s m.
  destruct (getMatrix_setByMatrix_ego (SC := RealScalar)
              (OSG := RealOsgOps) pitched (vec 1 2 3) s)
    as (He & _ & _ & Hm & _);
    [discriminate | exact pitched_unit | reflexivity |].
  split; [exact He | exact (Hm eq_refl)].
Defined.

Lemma rotateYawPitch_enter_pitched_free :
  rotateYawPitch_enter RefRotation 0 Z_AXIS
    (start MODE_EGO false pitched 10 (V3 0 0 0))
  = {| yp_ref := RefRotation;
       yp_state := start MODE_EGO false pitched 10 (V3 0 0 0);
       yp_verticalAxisFixed := true;
       yp_rotation := pitched;
       yp_rotateYaw := Q4 0 0 0 1;
       yp_cameraRight := V3 1 0 0;
       yp_eye := eye_of (start MODE_EGO false pitched 10 (V3 0 0 0)) |}.
Proof.
  unfold rotateYawPitch_enter, v3_neqb, Z_AXIS. real_ops. crunch.
  real_ops. rewrite Fix_vertical_axis_pitched. real_ops.
  rewrite Quat_angle_axis_zero_z, pitched_right. reflexivity.
Qed.

(** X13, a run: the level camera, whose vertical axis is not fixed, turned
    by nothing about the Z axis: the first candidate is accepted and the eye
    stays where it is. *)
Lemma rotateYawPitch_keeps_eye_run :
  let s := start MODE_EGO false pitched 10 (V3 0 0 0) in
  exists s',
    rotateYawPitch 20 RefRotation 0 0 Z_AXIS s = Some s'
    /\ eye_of s' = eye_of s
    /\ m_rotate (_rotation s') = m_rotate pitched.
Proof.
  intro s.
  assert (Hloop :
    let f := rotateYawPitch_enter RefRotation 0 Z_AXIS s in
    pitch_loop 20 (yp_rotation f) (yp_rotateYaw f) (yp_cameraRight f)
      Z_AXIS (yp_verticalAxisFixed f) 0 0 = Some (Accepted pitched, 0, 0%Z)).
  { unfold s. rewrite rotateYawPitch_enter_pitched_free.
    exact pitch_loop_pitched. }
  destruct (rotateYawPitch_keeps_eye (SC := RealScalar)
              (OSG := RealOsgOps) 20 RefRotation 0 0
              Z_AXIS s (Accepted (OSG := RealOsgOps) pitched) 0 0%Z
              eq_refl Hloop pitched_unit)
    as (s' & Hrun & _ & Hr & He).
  exists s'. split; [exact Hrun|]. split; [|exact Hr].
  apply He. unfold s. now rewrite rotateYawPitch_enter_pitched_free.
Defined.

(** X14, a run: the camera with the identity rotation, whose eye
    [(0, 0, 10)] is a [float]: releasing the toggle key leads to terrain
    mode and leaves the two matrices as they are. *)
Lemma getMatrix_modes_agree_up_to_float_run :
  let s := start MODE_EGO false Quat_identity 10 (V3 0 0 0) in
  myCurrentMode (snd (handleKeyUp (key_event KEY_F) s)) = MODE_TERRAIN
  /\ getMatrix (snd (handleKeyUp (key_event KEY_F) s)) = getMatrix s
  /\ getInverseMatrix (snd (handleKeyUp (key_event KEY_F) s))
     = getInverseMatrix s.
Proof.
  intro s. split; [reflexivity|].
  exact (proj2 (proj2 (getMatrix_modes_agree_up_to_float (SC := RealScalar)
                         s Quat_identity_unit) eq_refl)
           (key_event KEY_F)).
Defined.

End RealMoreRuns.
